(** * The kanata TCP protocol: message schema and serde_json wire format

    Shallow embedding of [tcp_protocol/src/lib.rs].  The crate's code is
    the three [#[derive(Serialize, Deserialize)]] enums, the two [as_bytes]
    helpers and [FromStr for ClientMessage]; their behaviour is the one that
    serde's derive and serde_json give them.  The development follows the
    layers of that code:

    - [jraw]: the JSON text as serde_json reads it, with string bodies kept
      in escaped form and numbers kept as lexemes (decoding them happens
      only for values that a visitor really consumes, as in serde_json,
      where ignored values are only scanned);
    - [print]: serde_json's compact formatter, [parse_value]: its reader;
    - [sval]: serde's data model, produced by the derived [Serialize] impls
      and consumed by [ser_json], serde_json's [Serializer];
    - the derived [Deserialize] impls read a [jraw] tree, threading
      serde_json's [remaining_depth] (128 at the start of every
      [from_str]/[from_slice]) exactly where serde_json decrements it. *)

From Stdlib Require Import String Ascii List ZArith Lia Bool.
Import ListNotations.
Open Scope string_scope.
Open Scope Z_scope.

(** ** Bytes and characters *)

Definition byte_of (c : ascii) : nat := nat_of_ascii c.
Definition dq : ascii := ascii_of_nat 34.          (* double quote *)
Definition bslash : ascii := ascii_of_nat 92.      (* backslash *)
Definition newline : ascii := ascii_of_nat 10.     (* b'\n' *)

Definition chr (n : nat) : ascii := ascii_of_nat n.

Definition is_digit (c : ascii) : bool :=
  (48 <=? byte_of c)%nat && (byte_of c <=? 57)%nat.

Definition is_hex (c : ascii) : bool :=
  is_digit c || ((97 <=? byte_of c)%nat && (byte_of c <=? 102)%nat)
             || ((65 <=? byte_of c)%nat && (byte_of c <=? 70)%nat).

Definition hex_val (c : ascii) : Z :=
  let n := byte_of c in
  if (n <=? 57)%nat then Z.of_nat n - 48
  else if (n <=? 70)%nat then Z.of_nat n - 55
  else Z.of_nat n - 87.

(** serde_json writes lowercase hex digits. *)
Definition hex_digit (n : nat) : ascii :=
  if (n <? 10)%nat then chr (48 + n) else chr (87 + n).

(** Backtick-quoted text: [tick "{`a`:1}"] is the JSON text [{"a":1}]. *)
Fixpoint tick (s : string) : string :=
  match s with
  | EmptyString => EmptyString
  | String c r => String (if Ascii.eqb c "`"%char then dq else c) (tick r)
  end.

(** ** Decimal integers (itoa) *)

Definition digit_char (n : Z) : ascii := chr (48 + Z.to_nat n).
Arguments digit_char : simpl never.

Fixpoint dec_aux (fuel : nat) (n : Z) (acc : string) : string :=
  match fuel with
  | O => String (digit_char n) acc
  | S f =>
      if n <? 10 then String (digit_char n) acc
      else dec_aux f (n / 10) (String (digit_char (n mod 10)) acc)
  end.

(** Decimal text of a non-negative integer, as [itoa] writes a [u64]. *)
Definition decimal (n : Z) : string := dec_aux (Z.to_nat (Z.log2 n)) n EmptyString.
Arguments decimal : simpl never.

(** [itoa] for an [i64]. *)
Definition decimal_signed (n : Z) : string :=
  if n <? 0 then String "-" (decimal (- n)) else decimal n.
Arguments decimal_signed : simpl never.

(** ** serde_json's string escaping ([format_escaped_str], table [ESCAPE]) *)

Definition escape_char (c : ascii) : string :=
  let n := byte_of c in
  if (n =? 34)%nat then String bslash (String dq EmptyString)
  else if (n =? 92)%nat then String bslash (String bslash EmptyString)
  else if (n <? 32)%nat then
    match n with
    | 8%nat => String bslash "b"
    | 9%nat => String bslash "t"
    | 10%nat => String bslash "n"
    | 12%nat => String bslash "f"
    | 13%nat => String bslash "r"
    | _ => String bslash (String "u" (String "0" (String "0"
             (String (hex_digit (n / 16)) (String (hex_digit (n mod 16)) EmptyString)))))
    end
  else String c EmptyString.

Fixpoint escape (s : string) : string :=
  match s with
  | EmptyString => EmptyString
  | String c r => escape_char c ++ escape r
  end.

Definition quote (body : string) : string := String dq (body ++ String dq EmptyString).

(** ** Lexing (serde_json's [parse_whitespace], [parse_integer],
    [parse_decimal], [parse_exponent], [parse_str]) *)

Definition is_ws (c : ascii) : bool :=
  match byte_of c with
  | 32%nat | 10%nat | 9%nat | 13%nat => true
  | _ => false
  end.

Fixpoint skip_ws (s : string) : string :=
  match s with
  | String c r => if is_ws c then skip_ws r else s
  | EmptyString => EmptyString
  end.

(** Consume an exact keyword ([parse_ident]). *)
Fixpoint eat (kw s : string) : option string :=
  match kw, s with
  | EmptyString, _ => Some s
  | String k kr, String c r => if Ascii.eqb k c then eat kr r else None
  | String _ _, EmptyString => None
  end.

Fixpoint lex_digits (s : string) : string * string :=
  match s with
  | String c r =>
      if is_digit c then let '(ds, r') := lex_digits r in (String c ds, r')
      else (EmptyString, s)
  | EmptyString => (EmptyString, EmptyString)
  end.

(** Integer part: a single [0] must not be followed by a digit. *)
Definition lex_int (s : string) : option (string * string) :=
  match s with
  | String c r =>
      if Ascii.eqb c "0"%char then
        match r with
        | String c' _ => if is_digit c' then None else Some ("0", r)
        | EmptyString => Some ("0", EmptyString)
        end
      else if is_digit c then let '(ds, r') := lex_digits r in Some (String c ds, r')
      else None
  | EmptyString => None
  end.

Definition lex_frac (s : string) : option (string * string) :=
  match s with
  | String c r =>
      if Ascii.eqb c "."%char then
        let '(ds, r') := lex_digits r in
        match ds with
        | EmptyString => None
        | _ => Some (String c ds, r')
        end
      else Some (EmptyString, s)
  | EmptyString => Some (EmptyString, EmptyString)
  end.

Definition is_exp_mark (c : ascii) : bool := Ascii.eqb c "e"%char || Ascii.eqb c "E"%char.
Definition is_sign (c : ascii) : bool := Ascii.eqb c "+"%char || Ascii.eqb c "-"%char.

Definition lex_exp (s : string) : option (string * string) :=
  match s with
  | String c r =>
      if is_exp_mark c then
        let '(sg, r1) :=
          match r with
          | String c' r' => if is_sign c' then (String c' EmptyString, r') else (EmptyString, r)
          | EmptyString => (EmptyString, EmptyString)
          end in
        let '(ds, r2) := lex_digits r1 in
        match ds with
        | EmptyString => None
        | _ => Some (String c (sg ++ ds), r2)
        end
      else Some (EmptyString, s)
  | EmptyString => Some (EmptyString, EmptyString)
  end.

(** A JSON number: [-? (0 | [1-9][0-9]* ) (. [0-9]+)? ([eE] [+-]? [0-9]+)?]. *)
Definition lex_number (s : string) : option (string * string) :=
  let '(sg, s1) :=
    match s with
    | String c r => if Ascii.eqb c "-"%char then ("-", r) else (EmptyString, s)
    | EmptyString => (EmptyString, EmptyString)
    end in
  match lex_int s1 with
  | None => None
  | Some (i, s2) =>
    match lex_frac s2 with
    | None => None
    | Some (f, s3) =>
      match lex_exp s3 with
      | None => None
      | Some (e, s4) => Some (sg ++ i ++ f ++ e, s4)
      end
    end
  end.

(** A complete number lexeme. *)
Definition number_lexeme (l : string) : bool :=
  match lex_number l with
  | Some (_, EmptyString) => true
  | _ => false
  end.

Definition is_simple_escape (c : ascii) : bool :=
  match byte_of c with
  | 34%nat | 92%nat | 47%nat | 98%nat | 102%nat | 110%nat | 114%nat | 116%nat => true
  | _ => false
  end.

(** Scan a string body up to the closing quote, checking escapes and
    rejecting raw control characters; the body is returned still escaped. *)
Fixpoint lex_str_body (s : string) : option (string * string) :=
  match s with
  | EmptyString => None
  | String c r =>
    if Ascii.eqb c dq then Some (EmptyString, r)
    else if Ascii.eqb c bslash then
      match r with
      | String e r1 =>
        if is_simple_escape e then
          match lex_str_body r1 with
          | Some (b, rest) => Some (String c (String e b), rest)
          | None => None
          end
        else if Ascii.eqb e "u"%char then
          match r1 with
          | String h1 (String h2 (String h3 (String h4 r2))) =>
            if is_hex h1 && is_hex h2 && is_hex h3 && is_hex h4 then
              match lex_str_body r2 with
              | Some (b, rest) =>
                  Some (String c (String e (String h1 (String h2 (String h3 (String h4 b))))), rest)
              | None => None
              end
            else None
          | _ => None
          end
        else None
      | EmptyString => None
      end
    else if (byte_of c <? 32)%nat then None
    else
      match lex_str_body r with
      | Some (b, rest) => Some (String c b, rest)
      | None => None
      end
  end.

(** ** The JSON text as read by serde_json *)

Set Warnings "-register-all".

Inductive jraw : Type :=
| RNull
| RBool (b : bool)
| RNum (lexeme : string)
| RStr (body : string)
| RArr (items : list jraw)
| RObj (members : list (string * jraw)).

(** serde_json's [CompactFormatter]: no whitespace at all. *)
Fixpoint print_items (pr : jraw -> string) (l : list jraw) : string :=
  match l with
  | [] => EmptyString
  | x :: l' => String ","%char (pr x ++ print_items pr l')
  end.

Fixpoint print_members (pr : jraw -> string) (ms : list (string * jraw)) : string :=
  match ms with
  | [] => EmptyString
  | (k, v) :: ms' => String ","%char (quote k ++ String ":"%char (pr v) ++ print_members pr ms')
  end.

Fixpoint print (t : jraw) : string :=
  match t with
  | RNull => "null"
  | RBool true => "true"
  | RBool false => "false"
  | RNum l => l
  | RStr b => quote b
  | RArr [] => "[]"
  | RArr (x :: l) => String "["%char (print x ++ print_items print l ++ "]")
  | RObj [] => "{}"
  | RObj ((k, v) :: ms) =>
      String "{"%char (quote k ++ String ":"%char (print v) ++ print_members print ms ++ "}")
  end.

(** Induction over [jraw] through its lists. *)
Section jraw_rect.
Variable P : jraw -> Prop.
Hypothesis Hnull : P RNull.
Hypothesis Hbool : forall b, P (RBool b).
Hypothesis Hnum : forall l, P (RNum l).
Hypothesis Hstr : forall b, P (RStr b).
Hypothesis Harr : forall l, Forall P l -> P (RArr l).
Hypothesis Hobj : forall ms, Forall (fun kv => P (snd kv)) ms -> P (RObj ms).

Fixpoint jraw_ind' (t : jraw) : P t :=
  match t with
  | RNull => Hnull
  | RBool b => Hbool b
  | RNum l => Hnum l
  | RStr b => Hstr b
  | RArr l =>
      Harr l ((fix go (l : list jraw) : Forall P l :=
                 match l with
                 | [] => Forall_nil _
                 | x :: l' => Forall_cons _ (jraw_ind' x) (go l')
                 end) l)
  | RObj ms =>
      Hobj ms ((fix go (ms : list (string * jraw)) : Forall (fun kv => P (snd kv)) ms :=
                 match ms with
                 | [] => Forall_nil _
                 | kv :: ms' => Forall_cons _ (jraw_ind' (snd kv)) (go ms')
                 end) ms)
  end.
End jraw_rect.

Fixpoint parse_value (fuel : nat) (s : string) {struct fuel} : option (jraw * string) :=
  match fuel with
  | O => None
  | S f =>
    match skip_ws s with
    | EmptyString => None
    | String c r =>
      if Ascii.eqb c "n"%char then option_map (fun r' => (RNull, r')) (eat "ull" r)
      else if Ascii.eqb c "t"%char then option_map (fun r' => (RBool true, r')) (eat "rue" r)
      else if Ascii.eqb c "f"%char then option_map (fun r' => (RBool false, r')) (eat "alse" r)
      else if Ascii.eqb c dq then option_map (fun '(b, r') => (RStr b, r')) (lex_str_body r)
      else if Ascii.eqb c "["%char then
        match skip_ws r with
        | String c' r' =>
            if Ascii.eqb c' "]"%char then Some (RArr [], r')
            else option_map (fun '(l, r') => (RArr l, r')) (parse_elems f r)
        | EmptyString => None
        end
      else if Ascii.eqb c "{"%char then
        match skip_ws r with
        | String c' r' =>
            if Ascii.eqb c' "}"%char then Some (RObj [], r')
            else option_map (fun '(l, r') => (RObj l, r')) (parse_members f r)
        | EmptyString => None
        end
      else if Ascii.eqb c "-"%char || is_digit c then
        option_map (fun '(l, r') => (RNum l, r')) (lex_number (String c r))
      else None
    end
  end
with parse_elems (fuel : nat) (s : string) {struct fuel} : option (list jraw * string) :=
  match fuel with
  | O => None
  | S f =>
    match parse_value f s with
    | None => None
    | Some (v, r) =>
      match skip_ws r with
      | String c r' =>
          if Ascii.eqb c ","%char then
            option_map (fun '(vs, r'') => (v :: vs, r'')) (parse_elems f r')
          else if Ascii.eqb c "]"%char then Some ([v], r')
          else None
      | EmptyString => None
      end
    end
  end
with parse_members (fuel : nat) (s : string) {struct fuel} : option (list (string * jraw) * string) :=
  match fuel with
  | O => None
  | S f =>
    match skip_ws s with
    | String c r =>
      if Ascii.eqb c dq then
        match lex_str_body r with
        | None => None
        | Some (k, r1) =>
          match skip_ws r1 with
          | String c1 r2 =>
            if Ascii.eqb c1 ":"%char then
              match parse_value f r2 with
              | None => None
              | Some (v, r3) =>
                match skip_ws r3 with
                | String c3 r4 =>
                  if Ascii.eqb c3 ","%char then
                    option_map (fun '(ms, r5) => ((k, v) :: ms, r5)) (parse_members f r4)
                  else if Ascii.eqb c3 "}"%char then Some ([(k, v)], r4)
                  else None
                | EmptyString => None
                end
              end
            else None
          | EmptyString => None
          end
        end
      else None
    | EmptyString => None
    end
  end.

(** ** Trees the reader gives back *)

(** A string body that the string scanner reads up to its closing quote. *)
Definition body_ok (b : string) : Prop :=
  forall rest, lex_str_body (b ++ String dq rest) = Some (b, rest).

Fixpoint all_list {A} (P : A -> Prop) (l : list A) : Prop :=
  match l with
  | [] => True
  | x :: l' => P x /\ all_list P l'
  end.

Fixpoint wf_raw (t : jraw) : Prop :=
  match t with
  | RNull | RBool _ => True
  | RNum l => number_lexeme l = true
  | RStr b => body_ok b
  | RArr l => all_list wf_raw l
  | RObj ms => all_list (fun '(k, v) => body_ok k /\ wf_raw v) ms
  end.

(** Fuel the reader needs for a tree (depth of its call chain). *)
Fixpoint sum_need (nd : jraw -> nat) (l : list jraw) : nat :=
  match l with
  | [] => O
  | x :: l' => S (nd x + sum_need nd l')
  end.

Fixpoint sum_need_m (nd : jraw -> nat) (ms : list (string * jraw)) : nat :=
  match ms with
  | [] => O
  | (_, v) :: ms' => S (nd v + sum_need_m nd ms')
  end.

Fixpoint need (t : jraw) : nat :=
  match t with
  | RArr l => S (sum_need need l)
  | RObj ms => S (sum_need_m need ms)
  | _ => 1%nat
  end.

(** What may follow a value: not something that would extend a number. *)
Definition stop (rest : string) : bool :=
  match rest with
  | EmptyString => true
  | String c _ => negb (is_digit c || Ascii.eqb c "."%char || is_exp_mark c)
  end.

(** A digit string as [itoa] writes it: no leading zero. *)
Definition lead_ok (ds : string) : bool :=
  match ds with
  | String c r => negb (Ascii.eqb c "0"%char) || String.eqb r EmptyString
  | EmptyString => false
  end.

(** [serde_json::from_str]'s reading of the text: one value, then only
    whitespace ([Deserializer::end]). *)
Definition read_json (s : string) : option jraw :=
  match parse_value (S (2 * String.length s)) s with
  | Some (t, r) =>
      match skip_ws r with
      | EmptyString => Some t
      | _ => None
      end
  | None => None
  end.

(** ** Decoding string bodies ([parse_str] with escapes, UTF-8 output) *)

Definition simple_escape_char (e : ascii) : ascii :=
  match byte_of e with
  | 98%nat => chr 8
  | 102%nat => chr 12
  | 110%nat => chr 10
  | 114%nat => chr 13
  | 116%nat => chr 9
  | _ => e
  end.

Definition hex4 (h1 h2 h3 h4 : ascii) : Z :=
  hex_val h1 * 4096 + hex_val h2 * 256 + hex_val h3 * 16 + hex_val h4.

Definition byte (n : Z) : ascii := chr (Z.to_nat n).

(** [char::encode_utf8]. *)
Definition utf8_encode (cp : Z) : string :=
  if cp <? 128 then String (byte cp) EmptyString
  else if cp <? 2048 then
    String (byte (192 + cp / 64)) (String (byte (128 + cp mod 64)) EmptyString)
  else if cp <? 65536 then
    String (byte (224 + cp / 4096))
      (String (byte (128 + (cp / 64) mod 64)) (String (byte (128 + cp mod 64)) EmptyString))
  else
    String (byte (240 + cp / 262144))
      (String (byte (128 + (cp / 4096) mod 64))
        (String (byte (128 + (cp / 64) mod 64)) (String (byte (128 + cp mod 64)) EmptyString))).

(** The escapes of a string body decoded; other bytes are copied.
    serde_json's [SliceRead] (behind [from_slice]) also checks that each
    decoded key and string is UTF-8 ([str::from_utf8]), but not the strings
    of a skipped value ([IgnoredAny]); [unescape] leaves that check out, and
    [utf8_valid] below states it where a property depends on it.  [StrRead]
    (behind [from_str]) reads a [&str], which is UTF-8 already. *)
Fixpoint unescape (b : string) : option string :=
  match b with
  | EmptyString => Some EmptyString
  | String c r =>
    if Ascii.eqb c bslash then
      match r with
      | String e r1 =>
        if is_simple_escape e then
          option_map (String (simple_escape_char e)) (unescape r1)
        else if Ascii.eqb e "u"%char then
          match r1 with
          | String h1 (String h2 (String h3 (String h4 r2))) =>
            let n := hex4 h1 h2 h3 h4 in
            if (55296 <=? n) && (n <? 56320) then
              (* a leading surrogate must be followed by an escaped trailing one *)
              match r2 with
              | String b1 (String u (String g1 (String g2 (String g3 (String g4 r3))))) =>
                let m := hex4 g1 g2 g3 g4 in
                if Ascii.eqb b1 bslash && Ascii.eqb u "u"%char
                   && (56320 <=? m) && (m <? 57344) then
                  option_map (fun t => utf8_encode (65536 + (n - 55296) * 1024 + (m - 56320)) ++ t)
                    (unescape r3)
                else None
              | _ => None
              end
            else if (56320 <=? n) && (n <? 57344) then None
            else option_map (fun t => utf8_encode n ++ t) (unescape r2)
          | _ => None
          end
        else None
      | EmptyString => None
      end
    else option_map (String c) (unescape r)
  end.



(** ** Floating-point numbers

    An [f64] is its 64-bit pattern.  Its text form is [ryu]'s shortest
    representation and its reading is serde_json's float parser; both are
    kept abstract here, with the one fact the printer relies on: [ryu]
    writes a JSON number. *)

Record f64 := mk_f64 { f64_bits : Z }.

Definition f64_is_finite (x : f64) : bool :=
  negb (Z.land (Z.shiftr (f64_bits x) 52) 2047 =? 2047).

Class F64Text := {
  ryu_format_finite : f64 -> string;
  f64_from_lexeme : string -> option f64;
  ryu_lexeme : forall x, number_lexeme (ryu_format_finite x) = true
}.

(** ** [serde_json::Value] *)

Inductive number :=
| PosInt (n : Z)        (* u64 *)
| NegInt (n : Z)        (* i64, always negative *)
| Float (x : f64).      (* finite *)

Module Value.
Inductive t :=
| Null
| Bool (b : bool)
| Number (n : number)
| String (s : string)
| Array (l : list t)
| Object (m : list (string * t)).    (* a BTreeMap: keys strictly increasing *)
End Value.

(** Induction over [Value.t] through its lists. *)
Section Value_rect.
Variable P : Value.t -> Prop.
Hypothesis Hnull : P Value.Null.
Hypothesis Hbool : forall b, P (Value.Bool b).
Hypothesis Hnum : forall n, P (Value.Number n).
Hypothesis Hstr : forall s, P (Value.String s).
Hypothesis Harr : forall l, Forall P l -> P (Value.Array l).
Hypothesis Hobj : forall m, Forall (fun kv => P (snd kv)) m -> P (Value.Object m).

Fixpoint Value_ind' (v : Value.t) : P v :=
  match v with
  | Value.Null => Hnull
  | Value.Bool b => Hbool b
  | Value.Number n => Hnum n
  | Value.String s => Hstr s
  | Value.Array l =>
      Harr l ((fix go (l : list Value.t) : Forall P l :=
                 match l with
                 | [] => Forall_nil _
                 | x :: l' => Forall_cons _ (Value_ind' x) (go l')
                 end) l)
  | Value.Object m =>
      Hobj m ((fix go (m : list (string * Value.t)) : Forall (fun kv => P (snd kv)) m :=
                 match m with
                 | [] => Forall_nil _
                 | kv :: m' => Forall_cons _ (Value_ind' (snd kv)) (go m')
                 end) m)
  end.
End Value_rect.

(** ** serde's data model (what a [Serialize] impl hands to a [Serializer]) *)

Inductive sval :=
| SBool (b : bool)
| SU64 (n : Z)
| SI64 (n : Z)
| SF64 (x : f64)
| SStr (s : string)
| SUnit
| SNone
| SSome (v : sval)
| SSeq (l : list sval)
| SMap (l : list (sval * sval))
| SStruct (name : string) (fields : list (string * sval))
| SUnitVariant (name variant : string)
| SStructVariant (name variant : string) (fields : list (string * sval)).

(** [impl Serialize for Value]. *)
Fixpoint ser_value (v : Value.t) : sval :=
  match v with
  | Value.Null => SUnit
  | Value.Bool b => SBool b
  | Value.Number (PosInt n) => SU64 n
  | Value.Number (NegInt n) => SI64 n
  | Value.Number (Float x) => SF64 x
  | Value.String s => SStr s
  | Value.Array l => SSeq (map ser_value l)
  | Value.Object m => SMap (map (fun '(k, x) => (SStr k, ser_value x)) m)
  end.

(** ** Error propagation ([?]): [None] stands for [Err(serde_json::Error)]. *)

Definition obind {A B} (o : option A) (f : A -> option B) : option B :=
  match o with Some a => f a | None => None end.

Notation "'let*' x := a 'in' b" := (obind a (fun x => b))
  (at level 200, x pattern, a at level 100, b at level 200).

(** A loop over a sequence that stops at the first error. *)
Fixpoint map_opt {A B} (f : A -> option B) (l : list A) : option (list B) :=
  match l with
  | [] => Some []
  | x :: l' => let* y := f x in let* ys := map_opt f l' in Some (y :: ys)
  end.

Section Serializer.
Context {FF : F64Text}.

(** serde_json's [MapKeySerializer]: string keys are written as they are,
    integer keys are quoted; any other key is [KeyMustBeAString]. *)
Definition key_text (k : sval) : option string :=
  match k with
  | SStr s => Some (escape s)
  | SU64 n => Some (decimal n)
  | SI64 n => Some (decimal_signed n)
  | _ => None
  end.

(** serde_json's [Serializer] over a [CompactFormatter]; [None] is the
    [serde_json::Error] that [to_vec] would return. *)
Fixpoint ser_json (v : sval) : option jraw :=
  match v with
  | SBool b => Some (RBool b)
  | SU64 n => Some (RNum (decimal n))
  | SI64 n => Some (RNum (decimal_signed n))
  | SF64 x => Some (if f64_is_finite x then RNum (ryu_format_finite x) else RNull)
  | SStr s => Some (RStr (escape s))
  | SUnit | SNone => Some RNull
  | SSome x => ser_json x
  | SSeq l => option_map RArr (map_opt ser_json l)
  | SMap kvs =>
      option_map RObj
        (map_opt (fun '(k, x) => let* k' := key_text k in let* x' := ser_json x in Some (k', x'))
           kvs)
  | SStruct _ fs =>
      option_map RObj (map_opt (fun '(k, x) => let* x' := ser_json x in Some (escape k, x')) fs)
  | SUnitVariant _ var => Some (RStr (escape var))
  | SStructVariant _ var fs =>
      option_map (fun o => RObj [(escape var, RObj o)])
        (map_opt (fun '(k, x) => let* x' := ser_json x in Some (escape k, x')) fs)
  end.

(** [serde_json::to_vec] / [to_string]. *)
Definition to_vec (v : sval) : option string := option_map print (ser_json v).

End Serializer.

(** The crate path [serde_json::to_vec], for the schema modules that
    define a [to_vec] of their own. *)
Module serde_json.
Definition to_vec {FF : F64Text} (v : sval) : option string := to_vec v.
End serde_json.


(** Classification of a number lexeme ([parse_integer] / [parse_number]):
    an integer that fits in a [u64] is [U64], a negative one that fits in
    an [i64] is [I64], anything else goes through the float parser. *)
Inductive pnum := PU64 (n : Z) | PI64 (n : Z) | PF64 (x : f64).

Fixpoint digits_value_aux (acc : Z) (ds : string) : Z :=
  match ds with
  | EmptyString => acc
  | String c r => digits_value_aux (acc * 10 + (Z.of_nat (byte_of c) - 48)) r
  end.

Definition digits_value (ds : string) : Z := digits_value_aux 0 ds.

Fixpoint all_digits (s : string) : bool :=
  match s with
  | EmptyString => true
  | String c r => is_digit c && all_digits r
  end.

Definition u64_limit : Z := 18446744073709551616.      (* 2^64 *)
Definition i64_limit : Z := 9223372036854775808.       (* 2^63 *)

(** BTreeMap insertion (byte-wise key order, a later value replaces). *)
Fixpoint map_insert {A} (k : string) (v : A) (m : list (string * A)) : list (string * A) :=
  match m with
  | [] => [(k, v)]
  | (k', v') :: m' =>
      match String.compare k k' with
      | Lt => (k, v) :: m
      | Eq => (k, v) :: m'
      | Gt => (k', v') :: map_insert k v m'
      end
  end.

Section Deserializer.
Context {FF : F64Text}.

Definition parse_number (l : string) : option pnum :=
  match l with
  | String c ds =>
    if Ascii.eqb c "-"%char && all_digits ds then
      let v := digits_value ds in
      if (1 <=? v) && (v <=? i64_limit) then Some (PI64 (- v))
      else option_map PF64 (f64_from_lexeme l)
    else if all_digits l then
      let v := digits_value l in
      if v <? u64_limit then Some (PU64 v) else option_map PF64 (f64_from_lexeme l)
    else option_map PF64 (f64_from_lexeme l)
  | EmptyString => None
  end.

(** [String]: only a JSON string is accepted. *)
Definition de_string (t : jraw) : option string :=
  match t with RStr b => unescape b | _ => None end.

(** [Option<String>] ([deserialize_option]: [null] is [None]). *)
Definition de_opt_string (t : jraw) : option (option string) :=
  match t with RNull => Some None | _ => option_map Some (de_string t) end.

Definition de_bool (t : jraw) : option bool :=
  match t with RBool b => Some b | _ => None end.

(** [u16]: serde's primitive visitor checks the range of an integer and
    refuses a float. *)
Definition de_u16 (t : jraw) : option Z :=
  match t with
  | RNum l =>
    match parse_number l with
    | Some (PU64 n) => if n <? 65536 then Some n else None
    | Some (PI64 i) => if (0 <=? i) && (i <? 65536) then Some i else None
    | _ => None
    end
  | _ => None
  end.

(** [u64] and [usize] (a 64-bit target). *)
Definition de_u64 (t : jraw) : option Z :=
  match t with
  | RNum l =>
    match parse_number l with
    | Some (PU64 n) => Some n
    | Some (PI64 i) => if 0 <=? i then Some i else None
    | _ => None
    end
  | _ => None
  end.

Definition de_opt_u64 (t : jraw) : option (option Z) :=
  match t with RNull => Some None | _ => option_map Some (de_u64 t) end.

(** [Vec<String>]: a sequence uses one level of [remaining_depth]. *)
Definition de_vec_string (d : nat) (t : jraw) : option (list string) :=
  match t with
  | RArr l => match d with O | S O => None | S _ => map_opt de_string l end
  | _ => None
  end.

(** [impl Deserialize for Value] through [deserialize_any]. *)
Fixpoint de_value (d : nat) (t : jraw) {struct t} : option Value.t :=
  match t with
  | RNull => Some Value.Null
  | RBool b => Some (Value.Bool b)
  | RNum l =>
    match parse_number l with
    | Some (PU64 n) => Some (Value.Number (PosInt n))
    | Some (PI64 i) => Some (Value.Number (if i <? 0 then NegInt i else PosInt i))
    | Some (PF64 x) => Some (if f64_is_finite x then Value.Number (Float x) else Value.Null)
    | None => None
    end
  | RStr b => option_map Value.String (unescape b)
  | RArr l =>
    match d with
    | O | S O => None
    | S d' => option_map Value.Array (map_opt (de_value d') l)
    end
  | RObj ms =>
    match d with
    | O | S O => None
    | S d' =>
      option_map (fun kvs => Value.Object (fold_left (fun acc '(k, y) => map_insert k y acc) kvs []))
        (map_opt (fun '(k, x) => let* k' := unescape k in let* y := de_value d' x in Some (k', y)) ms)
    end
  end.

(** The derived struct visitor.  From a JSON object: each key is decoded,
    a known field may appear once ([duplicate_field]), an unknown one is
    skipped with [IgnoredAny] (scanned, not decoded, no depth used).  From a
    JSON array: exactly one element per field.  Both use one level of
    [remaining_depth]; the result gives the depth left for the fields and
    one slot per declared field. *)
Fixpoint field_index (names : list string) (k : string) : option nat :=
  match names with
  | [] => None
  | n :: ns => if String.eqb n k then Some O else option_map S (field_index ns k)
  end.

Fixpoint set_slot (i : nat) (v : jraw) (slots : list (option jraw)) : option (list (option jraw)) :=
  match i, slots with
  | O, None :: r => Some (Some v :: r)
  | O, Some _ :: _ => None
  | S i', x :: r => option_map (cons x) (set_slot i' v r)
  | _, [] => None
  end.

Fixpoint collect_fields (names : list string) (ms : list (string * jraw))
    (slots : list (option jraw)) : option (list (option jraw)) :=
  match ms with
  | [] => Some slots
  | (k, v) :: ms' =>
    let* k' := unescape k in
    match field_index names k' with
    | Some i => let* slots' := set_slot i v slots in collect_fields names ms' slots'
    | None => collect_fields names ms' slots
    end
  end.

Definition de_struct (names : list string) (d : nat) (t : jraw)
    : option (nat * list (option jraw)) :=
  match d with
  | O | S O => None
  | S d' =>
    match t with
    | RObj ms => option_map (fun sl => (d', sl)) (collect_fields names ms (repeat None (length names)))
    | RArr l => if Nat.eqb (length l) (length names) then Some (d', map Some l) else None
    | _ => None
    end
  end.

(** A required field ([missing_field] when absent) and an [Option] field
    (absent means [None]). *)
Definition req {A} (f : jraw -> option A) (slot : option jraw) : option A :=
  match slot with Some t => f t | None => None end.

Definition opt {A} (f : jraw -> option (option A)) (slot : option jraw) : option (option A) :=
  match slot with Some t => f t | None => Some None end.

(** An externally tagged enum ([deserialize_enum]): either a bare string
    naming the variant, or an object with exactly one key, the variant,
    whose value is the variant's content; the object uses one level of
    [remaining_depth]. *)
Definition enum_access (d : nat) (t : jraw) : option (string * option (nat * jraw)) :=
  match t with
  | RStr b => option_map (fun v => (v, None)) (unescape b)
  | RObj [(k, x)] =>
    match d with
    | O | S O => None
    | S d' => option_map (fun v => (v, Some (d', x))) (unescape k)
    end
  | _ => None
  end.

(** [()] as the content of a unit variant in object form. *)
Definition de_unit (t : jraw) : option unit :=
  match t with RNull => Some tt | _ => None end.

End Deserializer.

(** serde's private [Content], the buffer of an internally tagged enum. *)
Inductive content :=
| CUnit
| CBool (b : bool)
| CU64 (n : Z)
| CI64 (n : Z)
| CF64 (x : f64)
| CString (s : string)
| CSeq (l : list content)
| CMap (l : list (string * content)).

Section Content.
Context {FF : F64Text}.

(** [Content::deserialize] through [deserialize_any]: everything is
    decoded, nested sequences and maps use [remaining_depth]. *)
Fixpoint de_content (d : nat) (t : jraw) {struct t} : option content :=
  match t with
  | RNull => Some CUnit
  | RBool b => Some (CBool b)
  | RNum l =>
    match parse_number l with
    | Some (PU64 n) => Some (CU64 n)
    | Some (PI64 i) => Some (CI64 i)
    | Some (PF64 x) => Some (CF64 x)
    | None => None
    end
  | RStr b => option_map CString (unescape b)
  | RArr l =>
    match d with
    | O | S O => None
    | S d' => option_map CSeq (map_opt (de_content d') l)
    end
  | RObj ms =>
    match d with
    | O | S O => None
    | S d' =>
      option_map CMap
        (map_opt (fun '(k, x) => let* k' := unescape k in let* y := de_content d' x in Some (k', y)) ms)
    end
  end.


End Content.

(** [serde_json::from_str] / [from_slice] start with this depth. *)
Definition initial_depth : nat := 128.

(** ** The values the reader gives back *)

(** A BTreeMap's entries: keys strictly increasing. *)
Fixpoint keys_sorted {A} (m : list (string * A)) : Prop :=
  match m with
  | [] => True
  | (k, _) :: m' => Forall (fun kv => String.compare k (fst kv) = Lt) m' /\ keys_sorted m'
  end.

(** A [Value] that [de_value d] can give back: numbers in the range of
    their Rust type, finite floats that serde_json's float parser reads
    back from [ryu]'s text as the same float, objects in BTreeMap order,
    and arrays and objects nested within the depth [d]. *)
Fixpoint value_ok {FF : F64Text} (d : nat) (v : Value.t) : Prop :=
  match v with
  | Value.Null | Value.Bool _ | Value.String _ => True
  | Value.Number (PosInt n) => 0 <= n < u64_limit
  | Value.Number (NegInt n) => - i64_limit <= n < 0
  | Value.Number (Float x) =>
      f64_is_finite x = true /\ parse_number (ryu_format_finite x) = Some (PF64 x)
  | Value.Array l => (2 <= d)%nat /\ all_list (value_ok (pred d)) l
  | Value.Object m =>
      (2 <= d)%nat /\ keys_sorted m /\ all_list (fun '(_, x) => value_ok (pred d) x) m
  end.

(** Objects in BTreeMap order at every depth. *)
Fixpoint objects_sorted (v : Value.t) : Prop :=
  match v with
  | Value.Array l => all_list objects_sorted l
  | Value.Object m => keys_sorted m /\ all_list (fun '(_, x) => objects_sorted x) m
  | _ => True
  end.

(** A [Value] as a Rust program can build it: integers in the range of
    their Rust type, finite floats, objects in BTreeMap order. *)
Fixpoint value_wf (v : Value.t) : Prop :=
  match v with
  | Value.Null | Value.Bool _ | Value.String _ => True
  | Value.Number (PosInt n) => 0 <= n < u64_limit
  | Value.Number (NegInt n) => - i64_limit <= n < 0
  | Value.Number (Float x) => f64_is_finite x = true
  | Value.Array l => all_list value_wf l
  | Value.Object m => keys_sorted m /\ all_list (fun '(_, x) => value_wf x) m
  end.

(** ** The schema: [tcp_protocol/src/lib.rs] *)

Module FakeKeyActionMessage.

Inductive t := Press | Release | Tap | Toggle.

Definition variant_name (a : t) : string :=
  match a with
  | Press => "Press"
  | Release => "Release"
  | Tap => "Tap"
  | Toggle => "Toggle"
  end.

Definition of_name (s : string) : option t :=
  if String.eqb s "Press" then Some Press
  else if String.eqb s "Release" then Some Release
  else if String.eqb s "Tap" then Some Tap
  else if String.eqb s "Toggle" then Some Toggle
  else None.

(** [#[derive(Serialize)]]: unit variants. *)
Definition serialize (a : t) : sval := SUnitVariant "FakeKeyActionMessage" (variant_name a).

(** [#[derive(Deserialize)]]. *)
Definition deserialize (d : nat) (x : jraw) : option t :=
  match enum_access d x with
  | Some (name, None) => of_name name
  | Some (name, Some (_, c)) => let* a := of_name name in let* _ := de_unit c in Some a
  | None => None
  end.

End FakeKeyActionMessage.

(** [#[serde(skip_serializing_if = Option::is_none)]] on a [session_id]. *)
Definition skip_none (k : string) (o : option string) : list (string * sval) :=
  match o with
  | Some v => [(k, SSome (SStr v))]
  | None => []
  end.

(** A plain [Option<String>] field. *)
Definition ser_opt_string (o : option string) : sval :=
  match o with Some v => SSome (SStr v) | None => SNone end.

Definition ser_opt_u64 (o : option Z) : sval :=
  match o with Some v => SSome (SU64 v) | None => SNone end.

Module ClientMessage.

Inductive t :=
| Authenticate (token : string) (client_name : option string)
| ChangeLayer (new : string) (session_id : option string)
| RequestLayerNames (session_id : option string)
| RequestCurrentLayerInfo (session_id : option string)
| RequestCurrentLayerName (session_id : option string)
| ActOnFakeKey (name : string) (action : FakeKeyActionMessage.t) (session_id : option string)
| SetMouse (x : Z) (y : Z) (session_id : option string)        (* u16, u16 *)
| Reload (session_id : option string)
| ReloadNext (session_id : option string)
| ReloadPrev (session_id : option string)
| ReloadNum (index : Z) (session_id : option string)            (* usize *)
| ReloadFile (path : string) (session_id : option string).

Definition variant_name (m : t) : string :=
  match m with
  | Authenticate _ _ => "Authenticate"
  | ChangeLayer _ _ => "ChangeLayer"
  | RequestLayerNames _ => "RequestLayerNames"
  | RequestCurrentLayerInfo _ => "RequestCurrentLayerInfo"
  | RequestCurrentLayerName _ => "RequestCurrentLayerName"
  | ActOnFakeKey _ _ _ => "ActOnFakeKey"
  | SetMouse _ _ _ => "SetMouse"
  | Reload _ => "Reload"
  | ReloadNext _ => "ReloadNext"
  | ReloadPrev _ => "ReloadPrev"
  | ReloadNum _ _ => "ReloadNum"
  | ReloadFile _ _ => "ReloadFile"
  end.

Definition variant_names : list string :=
  ["Authenticate"; "ChangeLayer"; "RequestLayerNames"; "RequestCurrentLayerInfo";
   "RequestCurrentLayerName"; "ActOnFakeKey"; "SetMouse"; "Reload"; "ReloadNext";
   "ReloadPrev"; "ReloadNum"; "ReloadFile"].

(** [#[derive(Serialize)]]: struct variants, [session_id] skipped when [None]. *)
Definition serialize (m : t) : sval :=
  SStructVariant "ClientMessage" (variant_name m)
    match m with
    | Authenticate token client_name =>
        [("token", SStr token); ("client_name", ser_opt_string client_name)]
    | ChangeLayer new sid => ("new", SStr new) :: skip_none "session_id" sid
    | RequestLayerNames sid => skip_none "session_id" sid
    | RequestCurrentLayerInfo sid => skip_none "session_id" sid
    | RequestCurrentLayerName sid => skip_none "session_id" sid
    | ActOnFakeKey name action sid =>
        ("name", SStr name) :: ("action", FakeKeyActionMessage.serialize action)
          :: skip_none "session_id" sid
    | SetMouse x y sid => ("x", SU64 x) :: ("y", SU64 y) :: skip_none "session_id" sid
    | Reload sid => skip_none "session_id" sid
    | ReloadNext sid => skip_none "session_id" sid
    | ReloadPrev sid => skip_none "session_id" sid
    | ReloadNum index sid => ("index", SU64 index) :: skip_none "session_id" sid
    | ReloadFile path sid => ("path", SStr path) :: skip_none "session_id" sid
    end.

(** The fields of each struct variant, in declaration order, and the ones
    that are not [Option]s. *)
Definition fields_of (name : string) : list string :=
  if String.eqb name "Authenticate" then ["token"; "client_name"]
  else if String.eqb name "ChangeLayer" then ["new"; "session_id"]
  else if String.eqb name "ActOnFakeKey" then ["name"; "action"; "session_id"]
  else if String.eqb name "SetMouse" then ["x"; "y"; "session_id"]
  else if String.eqb name "ReloadNum" then ["index"; "session_id"]
  else if String.eqb name "ReloadFile" then ["path"; "session_id"]
  else ["session_id"].

Definition required_fields (name : string) : list string :=
  if String.eqb name "Authenticate" then ["token"]
  else if String.eqb name "ChangeLayer" then ["new"]
  else if String.eqb name "ActOnFakeKey" then ["name"; "action"]
  else if String.eqb name "SetMouse" then ["x"; "y"]
  else if String.eqb name "ReloadNum" then ["index"]
  else if String.eqb name "ReloadFile" then ["path"]
  else [].

Definition session_of (m : t) : option string :=
  match m with
  | Authenticate _ _ => None
  | ChangeLayer _ sid | RequestLayerNames sid | RequestCurrentLayerInfo sid
  | RequestCurrentLayerName sid | ActOnFakeKey _ _ sid | SetMouse _ _ sid | Reload sid
  | ReloadNext sid | ReloadPrev sid | ReloadNum _ sid | ReloadFile _ sid => sid
  end.

(** The values a Rust [ClientMessage] can hold: [u16] and [usize] ranges. *)
Definition in_range (m : t) : Prop :=
  match m with
  | SetMouse x y _ => 0 <= x < 65536 /\ 0 <= y < 65536
  | ReloadNum index _ => 0 <= index < u64_limit
  | _ => True
  end.

Section De.
Context {FF : F64Text}.

Definition session_only (ctor : option string -> t) (d : nat) (x : jraw) : option t :=
  let* (_, sl) := de_struct ["session_id"] d x in
  match sl with
  | [s0] => let* sid := opt de_opt_string s0 in Some (ctor sid)
  | _ => None
  end.

(** The content of a struct variant, by variant name. *)
Definition de_variant (name : string) (d : nat) (x : jraw) : option t :=
  if String.eqb name "Authenticate" then
    let* (_, sl) := de_struct ["token"; "client_name"] d x in
    match sl with
    | [s0; s1] =>
        let* token := req de_string s0 in let* cn := opt de_opt_string s1 in
        Some (Authenticate token cn)
    | _ => None
    end
  else if String.eqb name "ChangeLayer" then
    let* (_, sl) := de_struct ["new"; "session_id"] d x in
    match sl with
    | [s0; s1] =>
        let* new := req de_string s0 in let* sid := opt de_opt_string s1 in
        Some (ChangeLayer new sid)
    | _ => None
    end
  else if String.eqb name "RequestLayerNames" then session_only RequestLayerNames d x
  else if String.eqb name "RequestCurrentLayerInfo" then session_only RequestCurrentLayerInfo d x
  else if String.eqb name "RequestCurrentLayerName" then session_only RequestCurrentLayerName d x
  else if String.eqb name "ActOnFakeKey" then
    let* (d', sl) := de_struct ["name"; "action"; "session_id"] d x in
    match sl with
    | [s0; s1; s2] =>
        let* nm := req de_string s0 in
        let* action := req (FakeKeyActionMessage.deserialize d') s1 in
        let* sid := opt de_opt_string s2 in
        Some (ActOnFakeKey nm action sid)
    | _ => None
    end
  else if String.eqb name "SetMouse" then
    let* (_, sl) := de_struct ["x"; "y"; "session_id"] d x in
    match sl with
    | [s0; s1; s2] =>
        let* vx := req de_u16 s0 in let* vy := req de_u16 s1 in
        let* sid := opt de_opt_string s2 in
        Some (SetMouse vx vy sid)
    | _ => None
    end
  else if String.eqb name "Reload" then session_only Reload d x
  else if String.eqb name "ReloadNext" then session_only ReloadNext d x
  else if String.eqb name "ReloadPrev" then session_only ReloadPrev d x
  else if String.eqb name "ReloadNum" then
    let* (_, sl) := de_struct ["index"; "session_id"] d x in
    match sl with
    | [s0; s1] =>
        let* index := req de_u64 s0 in let* sid := opt de_opt_string s1 in
        Some (ReloadNum index sid)
    | _ => None
    end
  else if String.eqb name "ReloadFile" then
    let* (_, sl) := de_struct ["path"; "session_id"] d x in
    match sl with
    | [s0; s1] =>
        let* path := req de_string s0 in let* sid := opt de_opt_string s1 in
        Some (ReloadFile path sid)
    | _ => None
    end
  else None.   (* unknown_variant *)

(** [#[derive(Deserialize)]]: every variant is a struct variant, so the
    bare-string form is always refused. *)
Definition deserialize (d : nat) (x : jraw) : option t :=
  match enum_access d x with
  | Some (name, Some (d', c)) => de_variant name d' c
  | _ => None
  end.

(** [impl FromStr for ClientMessage]: [serde_json::from_str(s)]. *)
Definition from_str (s : string) : option t :=
  let* j := read_json s in deserialize initial_depth j.

(** [serde_json::to_string(&m)]. *)
Definition to_string (m : t) : option string := to_vec (serialize m).

End De.
End ClientMessage.

Module ServerMessage.

Inductive t :=
| LayerChange (new : string)
| LayerNames (names : list string)
| CurrentLayerInfo (name : string) (cfg_text : string)
| ConfigFileReload (new : string)
| CurrentLayerName (name : string)
| MessagePush (message : Value.t)
| Error (msg : string)
| AuthResult (success : bool) (session_id : option string) (expires_in_seconds : option Z)
| AuthRequired
| SessionExpired.

Definition variant_name (m : t) : string :=
  match m with
  | LayerChange _ => "LayerChange"
  | LayerNames _ => "LayerNames"
  | CurrentLayerInfo _ _ => "CurrentLayerInfo"
  | ConfigFileReload _ => "ConfigFileReload"
  | CurrentLayerName _ => "CurrentLayerName"
  | MessagePush _ => "MessagePush"
  | Error _ => "Error"
  | AuthResult _ _ _ => "AuthResult"
  | AuthRequired => "AuthRequired"
  | SessionExpired => "SessionExpired"
  end.

Definition variant_names : list string :=
  ["LayerChange"; "LayerNames"; "CurrentLayerInfo"; "ConfigFileReload"; "CurrentLayerName";
   "MessagePush"; "Error"; "AuthResult"; "AuthRequired"; "SessionExpired"].

(** [#[derive(Serialize)]]: no field is skipped here. *)
Definition serialize (m : t) : sval :=
  match m with
  | LayerChange new => SStructVariant "ServerMessage" "LayerChange" [("new", SStr new)]
  | LayerNames names =>
      SStructVariant "ServerMessage" "LayerNames" [("names", SSeq (map SStr names))]
  | CurrentLayerInfo name cfg_text =>
      SStructVariant "ServerMessage" "CurrentLayerInfo"
        [("name", SStr name); ("cfg_text", SStr cfg_text)]
  | ConfigFileReload new => SStructVariant "ServerMessage" "ConfigFileReload" [("new", SStr new)]
  | CurrentLayerName name => SStructVariant "ServerMessage" "CurrentLayerName" [("name", SStr name)]
  | MessagePush message =>
      SStructVariant "ServerMessage" "MessagePush" [("message", ser_value message)]
  | Error msg => SStructVariant "ServerMessage" "Error" [("msg", SStr msg)]
  | AuthResult success session_id expires_in_seconds =>
      SStructVariant "ServerMessage" "AuthResult"
        [("success", SBool success); ("session_id", ser_opt_string session_id);
         ("expires_in_seconds", ser_opt_u64 expires_in_seconds)]
  | AuthRequired => SUnitVariant "ServerMessage" "AuthRequired"
  | SessionExpired => SUnitVariant "ServerMessage" "SessionExpired"
  end.

Definition fields_of (name : string) : list string :=
  if String.eqb name "LayerChange" then ["new"]
  else if String.eqb name "LayerNames" then ["names"]
  else if String.eqb name "CurrentLayerInfo" then ["name"; "cfg_text"]
  else if String.eqb name "ConfigFileReload" then ["new"]
  else if String.eqb name "CurrentLayerName" then ["name"]
  else if String.eqb name "MessagePush" then ["message"]
  else if String.eqb name "Error" then ["msg"]
  else if String.eqb name "AuthResult" then ["success"; "session_id"; "expires_in_seconds"]
  else [].

(** The fields that are not [Option]s ([missing_field] when absent; a
    [serde_json::Value] is read with [deserialize_any], so it is required
    too). *)
Definition required_fields (name : string) : list string :=
  if String.eqb name "LayerChange" then ["new"]
  else if String.eqb name "LayerNames" then ["names"]
  else if String.eqb name "CurrentLayerInfo" then ["name"; "cfg_text"]
  else if String.eqb name "ConfigFileReload" then ["new"]
  else if String.eqb name "CurrentLayerName" then ["name"]
  else if String.eqb name "MessagePush" then ["message"]
  else if String.eqb name "Error" then ["msg"]
  else if String.eqb name "AuthResult" then ["success"]
  else [].

(** The values that decode back: a [u64] in range, and a [MessagePush]
    value within what is left of the depth at the [message] field
    (128, less one for the enum and one for the variant's struct). *)
Definition in_range {FF : F64Text} (m : t) : Prop :=
  match m with
  | AuthResult _ _ (Some n) => 0 <= n < u64_limit
  | MessagePush v => value_ok 126 v
  | _ => True
  end.

Section De.
Context {FF : F64Text}.

Definition one_string (ctor : string -> t) (field : string) (d : nat) (x : jraw) : option t :=
  let* (_, sl) := de_struct [field] d x in
  match sl with
  | [s0] => let* v := req de_string s0 in Some (ctor v)
  | _ => None
  end.

Definition de_variant (name : string) (d : nat) (x : jraw) : option t :=
  if String.eqb name "LayerChange" then one_string LayerChange "new" d x
  else if String.eqb name "LayerNames" then
    let* (d', sl) := de_struct ["names"] d x in
    match sl with
    | [s0] => let* names := req (de_vec_string d') s0 in Some (LayerNames names)
    | _ => None
    end
  else if String.eqb name "CurrentLayerInfo" then
    let* (_, sl) := de_struct ["name"; "cfg_text"] d x in
    match sl with
    | [s0; s1] =>
        let* nm := req de_string s0 in let* cfg := req de_string s1 in
        Some (CurrentLayerInfo nm cfg)
    | _ => None
    end
  else if String.eqb name "ConfigFileReload" then one_string ConfigFileReload "new" d x
  else if String.eqb name "CurrentLayerName" then one_string CurrentLayerName "name" d x
  else if String.eqb name "MessagePush" then
    let* (d', sl) := de_struct ["message"] d x in
    match sl with
    | [s0] => let* v := req (de_value d') s0 in Some (MessagePush v)
    | _ => None
    end
  else if String.eqb name "Error" then one_string Error "msg" d x
  else if String.eqb name "AuthResult" then
    let* (_, sl) := de_struct ["success"; "session_id"; "expires_in_seconds"] d x in
    match sl with
    | [s0; s1; s2] =>
        let* ok := req de_bool s0 in let* sid := opt de_opt_string s1 in
        let* exp := opt de_opt_u64 s2 in
        Some (AuthResult ok sid exp)
    | _ => None
    end
  else if String.eqb name "AuthRequired" then let* _ := de_unit x in Some AuthRequired
  else if String.eqb name "SessionExpired" then let* _ := de_unit x in Some SessionExpired
  else None.

(** The bare-string form names a unit variant. *)
Definition de_unit_variant (name : string) : option t :=
  if String.eqb name "AuthRequired" then Some AuthRequired
  else if String.eqb name "SessionExpired" then Some SessionExpired
  else None.

(** [#[derive(Deserialize)]]. *)
Definition deserialize (d : nat) (x : jraw) : option t :=
  match enum_access d x with
  | Some (name, None) => de_unit_variant name
  | Some (name, Some (d', c)) => de_variant name d' c
  | None => None
  end.

(** [serde_json::from_slice::<ServerMessage>] on a received payload. *)
Definition from_slice (s : string) : option t :=
  let* j := read_json s in deserialize initial_depth j.

Definition to_vec (m : t) : option string := serde_json.to_vec (serialize m).

(** [ServerMessage::as_bytes]: [None] is the panic of [expect]. *)
Definition as_bytes (m : t) : option string :=
  option_map (fun b => b ++ String newline EmptyString) (to_vec m).

End De.
End ServerMessage.

Module ServerResponse.

Inductive t :=
| Ok
| Error (msg : string).

Definition variant_names : list string := ["Ok"; "Error"].

(** [#[derive(Serialize)] #[serde(tag = status)]]: the tag is the first
    field of a struct. *)
Definition serialize (r : t) : sval :=
  match r with
  | Ok => SStruct "ServerResponse" [("status", SStr "Ok")]
  | Error msg => SStruct "Error" [("status", SStr "Error"); ("msg", SStr msg)]
  end.

Section De.
Context {FF : F64Text}.

(** The tag's value is the variant identifier: a string naming a variant. *)
Definition de_tag (x : jraw) : option string :=
  let* s := de_string x in
  if String.eqb s "Ok" then Some s else if String.eqb s "Error" then Some s else None.

(** [TaggedContentVisitor::visit_map]: the tag once, every other entry
    buffered as [Content]. *)
Fixpoint tagged_map (d : nat) (ms : list (string * jraw)) (tag : option string)
    (acc : list (string * content)) : option (option string * list (string * content)) :=
  match ms with
  | [] => Some (tag, rev acc)
  | (k, v) :: ms' =>
    let* k' := unescape k in
    if String.eqb k' "status" then
      match tag with
      | Some _ => None                                  (* duplicate_field *)
      | None => let* tg := de_tag v in tagged_map d ms' (Some tg) acc
      end
    else let* c := de_content d v in tagged_map d ms' tag ((k', c) :: acc)
  end.

(** The derived visitor of [Error { msg }] over the buffered entries. *)
Fixpoint msg_field (entries : list (string * content)) (slot : option string) : option string :=
  match entries with
  | [] => slot                                          (* missing_field when None *)
  | (k, c) :: r =>
    if String.eqb k "msg" then
      match slot, c with
      | Some _, _ => None                               (* duplicate_field *)
      | None, CString v => msg_field r (Some v)
      | None, _ => None
      end
    else msg_field r slot
  end.

Definition deserialize (d : nat) (x : jraw) : option t :=
  match d with
  | O | S O => None
  | S d' =>
    match x with
    | RObj ms =>
      let* (tag, entries) := tagged_map d' ms None [] in
      match tag with
      | None => None                                    (* missing_field status *)
      | Some tg =>
        if String.eqb tg "Ok" then Some Ok              (* InternallyTaggedUnitVisitor *)
        else let* m := msg_field entries None in Some (Error m)
      end
    | RArr (tx :: rest) =>
      let* tg := de_tag tx in
      let* cs := map_opt (de_content d') rest in
      if String.eqb tg "Ok" then
        match cs with [] => Some Ok | _ => None end
      else
        match cs with [CString m] => Some (Error m) | _ => None end
    | _ => None
    end
  end.

Definition from_slice (s : string) : option t :=
  let* j := read_json s in deserialize initial_depth j.

Definition to_vec (r : t) : option string := serde_json.to_vec (serialize r).

(** [ServerResponse::as_bytes]: [None] is the panic of [expect]. *)
Definition as_bytes (r : t) : option string :=
  option_map (fun b => b ++ String newline EmptyString) (to_vec r).

End De.
End ServerResponse.

(** A float text used to run the definitions on examples: every float is
    printed as [0.0] and every float text is read as the float with bits
    [0] (positive zero), which therefore reads back as itself. *)
Definition toy_f64 : F64Text := {|
  ryu_format_finite := fun _ => "0.0";
  f64_from_lexeme := fun _ => Some (mk_f64 0);
  ryu_lexeme := fun _ => eq_refl
|}.

(** Values nested [n] arrays deep. *)
Fixpoint nest (n : nat) (v : Value.t) : Value.t :=
  match n with O => v | S k => Value.Array [nest k v] end.


Definition nl : string := String newline EmptyString.

(** Splitting a byte stream into frames: a reader takes everything up to
    and including the next newline byte; the payload is the part before it.
    A final piece without a newline is an incomplete frame, not a payload. *)
Fixpoint split_frames_aux (s : string) (cur : string) : list string :=
  match s with
  | EmptyString => []
  | String c r =>
      if Ascii.eqb c newline then cur :: split_frames_aux r EmptyString
      else split_frames_aux r (cur ++ String c EmptyString)
  end.

Definition split_frames (s : string) : list string := split_frames_aux s EmptyString.

Fixpoint has_newline (s : string) : bool :=
  match s with
  | EmptyString => false
  | String c r => Ascii.eqb c newline || has_newline r
  end.

(** Text without a raw newline byte inside any string or number. *)
Fixpoint no_nl (t : jraw) : Prop :=
  match t with
  | RNull | RBool _ => True
  | RNum l => has_newline l = false
  | RStr b => has_newline b = false
  | RArr l => all_list no_nl l
  | RObj ms => all_list (fun '(k, v) => has_newline k = false /\ no_nl v) ms
  end.

(** What the server writes on a connection: a message or a response. *)
Definition out_bytes {FF : F64Text} (x : ServerMessage.t + ServerResponse.t) : option string :=
  match x with inl m => ServerMessage.as_bytes m | inr r => ServerResponse.as_bytes r end.

(** A received payload decoded with the type the value was written with. *)
Definition out_decodes {FF : F64Text} (x : ServerMessage.t + ServerResponse.t) (p : string) : Prop :=
  match x with
  | inl m => ServerMessage.from_slice p = Some m
  | inr r => ServerResponse.from_slice p = Some r
  end.

Definition out_in_range {FF : F64Text} (x : ServerMessage.t + ServerResponse.t) : Prop :=
  match x with inl m => ServerMessage.in_range m | inr _ => True end.

(** ** C8's valid encodings of a [ClientMessage]

    What "a valid JSON encoding of a declared variant with all required
    fields present" means, written from the schema: a JSON object with one
    key naming the variant, whose value is an object giving each field of
    the variant once (an [Option] field may be left out), or an array
    giving the fields in order.  A field's value is valid when the
    decoder of the field's Rust type reads it as the message's value. *)
Module ClientEncoding.
Section Spec.
Context {FF : F64Text}.

(** The values of the entries of an object whose key reads as [f]. *)
Definition occurrences (f : string) (ms : list (string * jraw)) : list jraw :=
  map snd (filter (fun kv => match unescape (fst kv) with
                             | Some k => String.eqb k f | None => false end) ms).

(** A field of a variant: its name, what its absence stands for ([False]
    for a required field), and the JSON values that are a valid encoding
    of the field's value. *)
Record field := mk_field { f_name : string; f_absent : Prop; f_ok : jraw -> Prop }.

Definition required (name : string) (ok : jraw -> Prop) : field := mk_field name False ok.

(** The field of the message's variant, for each declared variant. *)
Definition field_specs (m : ClientMessage.t) : list field :=
  let session sid := mk_field "session_id" (sid = None) (fun v => de_opt_string v = Some sid) in
  match m with
  | ClientMessage.Authenticate token cn =>
      [required "token" (fun v => de_string v = Some token);
       mk_field "client_name" (cn = None) (fun v => de_opt_string v = Some cn)]
  | ClientMessage.ChangeLayer new sid =>
      [required "new" (fun v => de_string v = Some new); session sid]
  | ClientMessage.RequestLayerNames sid | ClientMessage.RequestCurrentLayerInfo sid
  | ClientMessage.RequestCurrentLayerName sid | ClientMessage.Reload sid
  | ClientMessage.ReloadNext sid | ClientMessage.ReloadPrev sid => [session sid]
  | ClientMessage.ActOnFakeKey nm a sid =>
      [required "name" (fun v => de_string v = Some nm);
       required "action" (fun v => FakeKeyActionMessage.deserialize 126 v = Some a); session sid]
  | ClientMessage.SetMouse x y sid =>
      [required "x" (fun v => de_u16 v = Some x); required "y" (fun v => de_u16 v = Some y);
       session sid]
  | ClientMessage.ReloadNum i sid => [required "index" (fun v => de_u64 v = Some i); session sid]
  | ClientMessage.ReloadFile p sid => [required "path" (fun v => de_string v = Some p); session sid]
  end.

(** A field given by the entries [o] under its name: none (then its
    absence must be allowed), or exactly one with a valid value. *)
Definition slot_ok (f : field) (o : list jraw) : Prop :=
  match o with [] => f_absent f | [v] => f_ok f v | _ => False end.

(** An object form: every key is a JSON string that reads, each field is
    given validly; other keys are free. *)
Definition valid_object (fs : list field) (ms : list (string * jraw)) : Prop :=
  (forall k v, In (k, v) ms -> unescape k <> None) /\
  all_list (fun f => slot_ok f (occurrences (f_name f) ms)) fs.

(** An array form: one valid value per field, in declaration order. *)
Fixpoint valid_array (fs : list field) (l : list jraw) : Prop :=
  match fs, l with
  | [], [] => True
  | f :: fs', v :: l' => f_ok f v /\ valid_array fs' l'
  | _, _ => False
  end.

Definition valid_content (fs : list field) (c : jraw) : Prop :=
  match c with
  | RObj ms => valid_object fs ms
  | RArr l => valid_array fs l
  | _ => False
  end.

(** [s] is a JSON text holding an object with one key, naming the variant
    of [m], whose value gives each field of [m]. *)
Definition valid_encoding (s : string) (m : ClientMessage.t) : Prop :=
  exists k c, read_json s = Some (RObj [(k, c)]) /\
    unescape k = Some (ClientMessage.variant_name m) /\ valid_content (field_specs m) c.

End Spec.
End ClientEncoding.

(** Proof helpers for the struct visitor: every key of an object reads,
    and the entries each field slot receives. *)
Definition keys_ok (ms : list (string * jraw)) : bool :=
  forallb (fun kv => match unescape (fst kv) with Some _ => true | None => false end) ms.

Definition slot_lists (names : list string) (slots : list (option jraw))
    (ms : list (string * jraw)) : list (list jraw) :=
  map (fun p => (match snd p with Some v => [v] | None => [] end
                 ++ ClientEncoding.occurrences (fst p) ms)%list)
    (combine names slots).

(** * Lemmas *)

Section Lemmas.
Context {FF : F64Text}.

(** ** Escaping: serde_json reads back what it writes *)

Lemma lex_str_body_escape_char c rest :
  lex_str_body (escape_char c ++ rest)
  = option_map (fun '(b, r) => (escape_char c ++ b, r)) (lex_str_body rest).
Proof.
  destruct c as [b0 b1 b2 b3 b4 b5 b6 b7].
  destruct b0, b1, b2, b3, b4, b5, b6, b7; simpl;
    destruct (lex_str_body rest) as [[? ?]|]; reflexivity.
Qed.

Lemma unescape_escape_char c rest :
  unescape (escape_char c ++ rest) = option_map (String c) (unescape rest).
Proof.
  destruct c as [b0 b1 b2 b3 b4 b5 b6 b7].
  destruct b0, b1, b2, b3, b4, b5, b6, b7; simpl; reflexivity.
Qed.

(** ** Strings *)

Lemma app_assoc_s (a b c : string) : (a ++ b) ++ c = a ++ (b ++ c).
Proof. induction a as [|x a IH]; simpl; [reflexivity | now rewrite IH]. Qed.

Lemma app_nil_r_s (a : string) : a ++ EmptyString = a.
Proof. induction a as [|x a IH]; simpl; [reflexivity | now rewrite IH]. Qed.

Lemma lex_str_body_escape s rest :
  lex_str_body (escape s ++ String dq rest) = Some (escape s, rest).
Proof.
  induction s as [|c s IH]; simpl.
  - reflexivity.
  - rewrite app_assoc_s, lex_str_body_escape_char, IH. reflexivity.
Qed.

Lemma body_ok_escape s : body_ok (escape s).
Proof. intro rest. apply lex_str_body_escape. Qed.

Lemma unescape_escape s : unescape (escape s) = Some s.
Proof.
  induction s as [|c s IH]; simpl.
  - reflexivity.
  - rewrite unescape_escape_char, IH. reflexivity.
Qed.

(** ** Characters, case by case *)

Ltac all_bytes c :=
  destruct c as [b0 b1 b2 b3 b4 b5 b6 b7];
  destruct b0, b1, b2, b3, b4, b5, b6, b7.

(** What a number starts with is none of the other value starters. *)
Lemma number_start_char c :
  (Ascii.eqb c "-"%char || is_digit c) = true ->
  is_ws c = false /\ Ascii.eqb c "n"%char = false /\ Ascii.eqb c "t"%char = false /\
  Ascii.eqb c "f"%char = false /\ Ascii.eqb c dq = false /\ Ascii.eqb c "["%char = false /\
  Ascii.eqb c "{"%char = false /\ Ascii.eqb c "]"%char = false /\ Ascii.eqb c "}"%char = false /\
  Ascii.eqb c newline = false.
Proof. all_bytes c; simpl; intro H; try discriminate H; repeat split. Qed.

Lemma digit_not_minus c : is_digit c = true -> Ascii.eqb c "-"%char = false.
Proof. all_bytes c; simpl; intro H; try discriminate H; reflexivity. Qed.

Lemma digit_char_spec k :
  0 <= k < 10 ->
  is_digit (digit_char k) = true /\ Z.of_nat (byte_of (digit_char k)) - 48 = k /\
  (Ascii.eqb (digit_char k) "0"%char = true -> k = 0).
Proof.
  intro H.
  assert (k = 0 \/ k = 1 \/ k = 2 \/ k = 3 \/ k = 4 \/ k = 5 \/ k = 6 \/ k = 7 \/ k = 8 \/ k = 9)
    as Hk by lia.
  repeat destruct Hk as [Hk|Hk]; subst; repeat split; try reflexivity; discriminate.
Qed.

(** ** Number lexing *)

Lemma lex_digits_app s ds r : lex_digits s = (ds, r) -> s = ds ++ r.
Proof.
  revert ds r; induction s as [|c s IH]; simpl; intros ds r H.
  - inversion H; reflexivity.
  - destruct (is_digit c).
    + destruct (lex_digits s) as [ds' r'] eqn:E. inversion H; subst.
      simpl. f_equal. now apply IH.
    + inversion H; reflexivity.
Qed.

Lemma lex_digits_stop rest : stop rest = true -> lex_digits rest = (EmptyString, rest).
Proof.
  destruct rest as [|c r]; simpl; [reflexivity|].
  destruct (is_digit c); simpl; [discriminate | reflexivity].
Qed.

Lemma lex_digits_ext s ds r rest :
  lex_digits s = (ds, r) -> stop rest = true -> lex_digits (s ++ rest) = (ds, r ++ rest).
Proof.
  revert ds r; induction s as [|c s IH]; simpl; intros ds r H Hs.
  - inversion H; subst. now apply lex_digits_stop.
  - destruct (is_digit c).
    + destruct (lex_digits s) as [ds' r'] eqn:E. inversion H; subst.
      now rewrite (IH ds' r eq_refl Hs).
    + inversion H; reflexivity.
Qed.

Lemma lex_int_app s i r : lex_int s = Some (i, r) -> s = i ++ r.
Proof.
  destruct s as [|c s]; simpl; [discriminate|].
  destruct (Ascii.eqb c "0"%char) eqn:E0.
  - apply Ascii.eqb_eq in E0; subst.
    destruct s as [|c' s']; [intro H; inversion H; reflexivity|].
    destruct (is_digit c'); [discriminate|]. intro H; inversion H; reflexivity.
  - destruct (is_digit c); [|discriminate].
    destruct (lex_digits s) as [ds r'] eqn:E. intro H; inversion H; subst.
    simpl. f_equal. now apply lex_digits_app.
Qed.

Lemma lex_int_ext s i r rest :
  lex_int s = Some (i, r) -> stop rest = true -> lex_int (s ++ rest) = Some (i, r ++ rest).
Proof.
  intros H Hs. destruct s as [|c s]; simpl in *; [discriminate|].
  destruct (Ascii.eqb c "0"%char) eqn:E0.
  - destruct s as [|c' s'].
    + inversion H; subst. simpl.
      destruct rest as [|c'' r'']; [reflexivity|]. simpl in Hs.
      destruct (is_digit c''); [discriminate | reflexivity].
    + simpl. destruct (is_digit c'); [discriminate|]. inversion H; reflexivity.
  - destruct (is_digit c); [|discriminate].
    destruct (lex_digits s) as [ds r'] eqn:E. inversion H; subst.
    now rewrite (lex_digits_ext _ _ _ _ E Hs).
Qed.

Lemma lex_frac_app s f r : lex_frac s = Some (f, r) -> s = f ++ r.
Proof.
  destruct s as [|c s]; simpl; [intro H; inversion H; reflexivity|].
  destruct (Ascii.eqb c "."%char).
  - destruct (lex_digits s) as [ds r'] eqn:E. destruct ds; [discriminate|].
    intro H; inversion H; subst. simpl. f_equal. apply lex_digits_app in E; exact E.
  - intro H; inversion H; reflexivity.
Qed.

Lemma lex_frac_ext s f r rest :
  lex_frac s = Some (f, r) -> stop rest = true -> lex_frac (s ++ rest) = Some (f, r ++ rest).
Proof.
  intros H Hs. destruct s as [|c s]; simpl in *.
  - inversion H; subst. destruct rest as [|c' r']; [reflexivity|]. simpl in *.
    destruct (Ascii.eqb c' "."%char); [|reflexivity].
    rewrite orb_true_r in Hs; discriminate.
  - destruct (Ascii.eqb c "."%char).
    + destruct (lex_digits s) as [ds r'] eqn:E. destruct ds as [|d ds]; [discriminate|].
      inversion H; subst. now rewrite (lex_digits_ext _ _ _ _ E Hs).
    + inversion H; reflexivity.
Qed.

Lemma lex_exp_app s e r : lex_exp s = Some (e, r) -> s = e ++ r.
Proof.
  destruct s as [|c s]; simpl; [intro H; inversion H; reflexivity|].
  destruct (is_exp_mark c).
  - destruct s as [|c' s'].
    + simpl. discriminate.
    + destruct (is_sign c').
      * destruct (lex_digits s') as [ds r'] eqn:E. destruct ds; [discriminate|].
        intro H; inversion H; subst. simpl. f_equal. f_equal. apply lex_digits_app in E; exact E.
      * destruct (lex_digits (String c' s')) as [ds r'] eqn:E. destruct ds; [discriminate|].
        intro H; inversion H; subst. simpl. f_equal. apply lex_digits_app in E; exact E.
  - intro H; inversion H; reflexivity.
Qed.

Lemma lex_exp_ext s e r rest :
  lex_exp s = Some (e, r) -> stop rest = true -> lex_exp (s ++ rest) = Some (e, r ++ rest).
Proof.
  intros H Hs. destruct s as [|c s]; simpl in *.
  - inversion H; subst. destruct rest as [|c' r']; [reflexivity|]. simpl in *.
    destruct (is_exp_mark c'); [|reflexivity].
    rewrite orb_true_r in Hs; discriminate.
  - destruct (is_exp_mark c); [|inversion H; reflexivity].
    destruct s as [|c' s']; [simpl in H; discriminate|].
    simpl. destruct (is_sign c').
    + destruct (lex_digits s') as [ds r'] eqn:E. destruct ds as [|d ds]; [discriminate|].
      inversion H; subst. now rewrite (lex_digits_ext _ _ _ _ E Hs).
    + destruct (lex_digits (String c' s')) as [ds r'] eqn:E. destruct ds as [|d ds]; [discriminate|].
      inversion H; subst.
      change (String c' (s' ++ rest)) with (String c' s' ++ rest).
      now rewrite (lex_digits_ext _ _ _ _ E Hs).
Qed.

Lemma lex_number_ext s x r rest :
  lex_number s = Some (x, r) -> stop rest = true -> lex_number (s ++ rest) = Some (x, r ++ rest).
Proof.
  intros H Hs. unfold lex_number in *.
  assert (Hsplit : forall sg s1, (sg, s1) = match s with
      | String c r => if Ascii.eqb c "-"%char then ("-", r) else (EmptyString, s)
      | EmptyString => (EmptyString, EmptyString) end ->
    lex_int s1 <> None ->
    match s ++ rest with
      | String c r => if Ascii.eqb c "-"%char then ("-", r) else (EmptyString, s ++ rest)
      | EmptyString => (EmptyString, EmptyString) end = (sg, s1 ++ rest)).
  { intros sg s1 E Hne. destruct s as [|c s']; simpl in *.
    - inversion E; subst. simpl in Hne. congruence.
    - destruct (Ascii.eqb c "-"%char); inversion E; reflexivity. }
  destruct (match s with
      | String c r => if Ascii.eqb c "-"%char then ("-", r) else (EmptyString, s)
      | EmptyString => (EmptyString, EmptyString) end) as [sg s1] eqn:E.
  destruct (lex_int s1) as [[i s2]|] eqn:Ei; [|discriminate].
  rewrite (Hsplit sg s1 eq_refl) by congruence.
  rewrite (lex_int_ext _ _ _ _ Ei Hs).
  destruct (lex_frac s2) as [[f s3]|] eqn:Ef; [|discriminate].
  rewrite (lex_frac_ext _ _ _ _ Ef Hs).
  destruct (lex_exp s3) as [[e s4]|] eqn:Ee; [|discriminate].
  rewrite (lex_exp_ext _ _ _ _ Ee Hs).
  inversion H; reflexivity.
Qed.

Lemma lex_number_app s x r : lex_number s = Some (x, r) -> s = x ++ r.
Proof.
  unfold lex_number. intro H.
  destruct s as [|c s']; [discriminate|].
  destruct (Ascii.eqb c "-"%char) eqn:Em; cbv beta iota in H.
  - destruct (lex_int s') as [[i s2]|] eqn:Ei; [|discriminate].
    destruct (lex_frac s2) as [[f s3]|] eqn:Ef; [|discriminate].
    destruct (lex_exp s3) as [[e s4]|] eqn:Ee; [|discriminate].
    inversion H; subst.
    apply lex_int_app in Ei. apply lex_frac_app in Ef. apply lex_exp_app in Ee.
    apply Ascii.eqb_eq in Em. subst c. simpl. f_equal.
    rewrite Ei, Ef, Ee, !app_assoc_s. reflexivity.
  - destruct (lex_int (String c s')) as [[i s2]|] eqn:Ei; [|discriminate].
    destruct (lex_frac s2) as [[f s3]|] eqn:Ef; [|discriminate].
    destruct (lex_exp s3) as [[e s4]|] eqn:Ee; [|discriminate].
    inversion H; subst.
    apply lex_int_app in Ei. apply lex_frac_app in Ef. apply lex_exp_app in Ee.
    rewrite Ei, Ef, Ee, !app_assoc_s. reflexivity.
Qed.

Lemma number_lexeme_lex l : number_lexeme l = true -> lex_number l = Some (l, EmptyString).
Proof.
  unfold number_lexeme. destruct (lex_number l) as [[x r]|] eqn:E; [|discriminate].
  destruct r; [|discriminate]. intros _. apply lex_number_app in E.
  rewrite app_nil_r_s in E. subst. reflexivity.
Qed.

Lemma number_lexeme_start l :
  number_lexeme l = true ->
  exists c l', l = String c l' /\ (Ascii.eqb c "-"%char || is_digit c) = true.
Proof.
  unfold number_lexeme, lex_number. destruct l as [|c l']; [simpl; discriminate|].
  intros H. exists c, l'. split; [reflexivity|].
  destruct (Ascii.eqb c "-"%char); [reflexivity|]. simpl orb.
  destruct (lex_int (String c l')) eqn:E; [|discriminate].
  simpl in E. destruct (Ascii.eqb c "0"%char) eqn:E0.
  - apply Ascii.eqb_eq in E0; subst; reflexivity.
  - destruct (is_digit c); [reflexivity | discriminate].
Qed.

(** ** Decimal integers *)

Lemma all_digits_app a b : all_digits (a ++ b) = all_digits a && all_digits b.
Proof. induction a as [|c a IH]; simpl; [reflexivity | rewrite IH, andb_assoc; reflexivity]. Qed.

Lemma digits_value_aux_app acc a b :
  digits_value_aux acc (a ++ b) = digits_value_aux (digits_value_aux acc a) b.
Proof. revert acc; induction a as [|c a IH]; intro acc; simpl; [reflexivity | apply IH]. Qed.

Lemma dec_aux_one n acc :
  0 <= n < 10 ->
  exists ds, String (digit_char n) acc = ds ++ acc /\ all_digits ds = true /\
             digits_value ds = n /\ lead_ok ds = true.
Proof.
  intro Hn. destruct (digit_char_spec n Hn) as [Hd [Hv _]].
  exists (String (digit_char n) EmptyString).
  split; [reflexivity|].
  split; [cbn [all_digits]; rewrite Hd; reflexivity|].
  split; [unfold digits_value; cbn [digits_value_aux]; rewrite Hv; lia|].
  cbn [lead_ok String.eqb]. apply orb_true_r.
Qed.

Lemma dec_aux_spec f n acc :
  0 <= n < 10 ^ Z.of_nat (S f) ->
  exists ds, dec_aux f n acc = ds ++ acc /\ all_digits ds = true /\
             digits_value ds = n /\ lead_ok ds = true.
Proof.
  revert n acc; induction f as [|f IH]; intros n acc Hn.
  - apply dec_aux_one. simpl in Hn. lia.
  - cbn [dec_aux]. destruct (n <? 10) eqn:E.
    + apply Z.ltb_lt in E. apply dec_aux_one. lia.
    + apply Z.ltb_ge in E.
      assert (Hm : 0 <= n mod 10 < 10) by (apply Z.mod_pos_bound; lia).
      assert (Hq : 0 <= n / 10 < 10 ^ Z.of_nat (S f)).
      { split; [apply Z.div_pos; lia|].
        apply Z.div_lt_upper_bound; [lia|].
        replace (Z.of_nat (S (S f))) with (Z.succ (Z.of_nat (S f))) in Hn by lia.
        rewrite Z.pow_succ_r in Hn by lia. lia. }
      destruct (IH (n / 10) (String (digit_char (n mod 10)) acc) Hq)
        as [ds [H1 [H2 [H3 H4]]]].
      destruct (digit_char_spec (n mod 10)) as [Hd [Hv _]]; [lia|].
      exists (ds ++ String (digit_char (n mod 10)) EmptyString). rewrite H1.
      split; [rewrite app_assoc_s; reflexivity|].
      split; [rewrite all_digits_app, H2; cbn [all_digits andb]; rewrite Hd; reflexivity|].
      split.
      { unfold digits_value. rewrite digits_value_aux_app. fold (digits_value ds).
        rewrite H3. cbn [digits_value_aux]. rewrite Hv. pose proof (Z.div_mod n 10). lia. }
      destruct ds as [|c r]; [discriminate|]. cbn [lead_ok String.append] in H4 |- *.
      destruct (Ascii.eqb c "0"%char) eqn:Ec; [|reflexivity]. cbn [negb orb] in H4.
      apply String.eqb_eq in H4. subst r.
      apply Ascii.eqb_eq in Ec. subst c.
      change (digits_value (String "0"%char EmptyString)) with 0 in H3.
      assert (1 <= n / 10) by (apply Z.div_le_lower_bound; lia). lia.
Qed.

Lemma decimal_spec n :
  0 <= n ->
  all_digits (decimal n) = true /\ digits_value (decimal n) = n /\ lead_ok (decimal n) = true.
Proof.
  intro Hn. unfold decimal.
  destruct (dec_aux_spec (Z.to_nat (Z.log2 n)) n EmptyString) as [ds [H1 H2]].
  - split; [exact Hn|]. rewrite Nat2Z.inj_succ, Z2Nat.id by apply Z.log2_nonneg.
    destruct (Z.eq_dec n 0) as [->|Hnz]; [reflexivity|].
    destruct (Z.log2_spec n) as [_ Hl]; [lia|].
    eapply Z.lt_le_trans; [exact Hl|].
    apply Z.pow_le_mono_l. split; [lia|lia].
  - rewrite H1, app_nil_r_s. exact H2.
Qed.

Lemma lex_digits_all ds : all_digits ds = true -> lex_digits ds = (ds, EmptyString).
Proof.
  induction ds as [|c ds IH]; simpl; [reflexivity|].
  destruct (is_digit c); [|discriminate]. intro H. rewrite (IH H). reflexivity.
Qed.

Lemma lex_int_digits ds :
  all_digits ds = true -> lead_ok ds = true -> lex_int ds = Some (ds, EmptyString).
Proof.
  destruct ds as [|c r]; [discriminate|]. simpl. intros Ha Hl.
  destruct (is_digit c) eqn:Hd; [|discriminate]. simpl in Ha.
  destruct (Ascii.eqb c "0"%char) eqn:E0.
  - simpl in Hl. apply String.eqb_eq in Hl. subst r.
    apply Ascii.eqb_eq in E0. subst c. reflexivity.
  - rewrite (lex_digits_all r Ha). reflexivity.
Qed.

Lemma lex_number_digits ds :
  all_digits ds = true -> lead_ok ds = true -> lex_number ds = Some (ds, EmptyString).
Proof.
  intros Ha Hl. pose proof (lex_int_digits ds Ha Hl) as Hi.
  unfold lex_number. destruct ds as [|c r]; [discriminate|].
  simpl in Ha. destruct (is_digit c) eqn:Hd; [|discriminate].
  rewrite (digit_not_minus c Hd), Hi. simpl. rewrite app_nil_r_s. reflexivity.
Qed.

Lemma number_lexeme_decimal n : 0 <= n -> number_lexeme (decimal n) = true.
Proof.
  intro Hn. destruct (decimal_spec n Hn) as [Ha [_ Hl]].
  unfold number_lexeme. rewrite (lex_number_digits _ Ha Hl). reflexivity.
Qed.

Lemma number_lexeme_decimal_signed n : number_lexeme (decimal_signed n) = true.
Proof.
  unfold decimal_signed. destruct (n <? 0) eqn:E.
  - apply Z.ltb_lt in E. destruct (decimal_spec (- n)) as [Ha [_ Hl]]; [lia|].
    unfold number_lexeme, lex_number. simpl.
    rewrite (lex_int_digits _ Ha Hl). reflexivity.
  - apply Z.ltb_ge in E. apply number_lexeme_decimal. exact E.
Qed.

Lemma parse_number_decimal n :
  0 <= n < u64_limit -> parse_number (decimal n) = Some (PU64 n).
Proof.
  intro Hn. destruct (decimal_spec n) as [Ha [Hv Hl]]; [lia|].
  unfold parse_number. destruct (decimal n) as [|c r] eqn:E; [discriminate|].
  simpl in Ha. destruct (is_digit c) eqn:Hd; [|discriminate].
  rewrite (digit_not_minus c Hd). simpl andb. cbv iota beta.
  rewrite <- E in Hv |- *. simpl all_digits. rewrite E. simpl all_digits. rewrite Hd, Ha.
  simpl andb. cbv iota beta. rewrite <- E, Hv.
  destruct (n <? u64_limit) eqn:Hb; [reflexivity|]. apply Z.ltb_ge in Hb. lia.
Qed.

Lemma parse_number_decimal_signed n :
  - i64_limit <= n < 0 -> parse_number (decimal_signed n) = Some (PI64 n).
Proof.
  intro Hn. destruct (decimal_spec (- n)) as [Ha [Hv Hl]]; [lia|].
  unfold decimal_signed. destruct (n <? 0) eqn:E; [|apply Z.ltb_ge in E; lia].
  unfold parse_number. simpl Ascii.eqb. rewrite Ha. simpl andb. cbv iota beta zeta.
  rewrite Hv. destruct ((1 <=? - n) && (- n <=? i64_limit)) eqn:Hb.
  - rewrite Z.opp_involutive. reflexivity.
  - apply andb_false_iff in Hb. destruct Hb as [Hb|Hb]; apply Z.leb_gt in Hb; lia.
Qed.

(** ** The reader reads back what the printer writes *)

Lemma skip_ws_nws c s : is_ws c = false -> skip_ws (String c s) = String c s.
Proof. intro H. simpl. rewrite H. reflexivity. Qed.

Lemma parse_value_dq f s :
  parse_value (S f) (String dq s) = option_map (fun '(b, r') => (RStr b, r')) (lex_str_body s).
Proof. reflexivity. Qed.

Lemma parse_value_arr f c s :
  is_ws c = false -> Ascii.eqb c "]"%char = false ->
  parse_value (S f) (String "["%char (String c s))
  = option_map (fun '(l, r') => (RArr l, r')) (parse_elems f (String c s)).
Proof. intros H1 H2. all_bytes c; simpl in H1, H2; try discriminate; reflexivity. Qed.

Lemma parse_value_obj f s :
  parse_value (S f) (String "{"%char (String dq s))
  = option_map (fun '(l, r') => (RObj l, r')) (parse_members f (String dq s)).
Proof. reflexivity. Qed.

Lemma parse_value_num f c s :
  (Ascii.eqb c "-"%char || is_digit c) = true ->
  parse_value (S f) (String c s)
  = option_map (fun '(l, r') => (RNum l, r')) (lex_number (String c s)).
Proof. intro H. all_bytes c; simpl in H; try discriminate; reflexivity. Qed.

Lemma parse_elems_comma g s v X :
  parse_value g s = Some (v, String ","%char X) ->
  parse_elems (S g) s = option_map (fun '(vs, r'') => (v :: vs, r'')) (parse_elems g X).
Proof. intro H. simpl. rewrite H. reflexivity. Qed.

Lemma parse_elems_close g s v rest :
  parse_value g s = Some (v, String "]"%char rest) -> parse_elems (S g) s = Some ([v], rest).
Proof. intro H. simpl. rewrite H. reflexivity. Qed.

Lemma parse_members_comma g X k Z v Y :
  lex_str_body X = Some (k, String ":"%char Z) ->
  parse_value g Z = Some (v, String ","%char Y) ->
  parse_members (S g) (String dq X)
  = option_map (fun '(ms, r5) => ((k, v) :: ms, r5)) (parse_members g Y).
Proof. intros H1 H2. simpl. rewrite H1. simpl. rewrite H2. reflexivity. Qed.

Lemma parse_members_close g X k Z v rest :
  lex_str_body X = Some (k, String ":"%char Z) ->
  parse_value g Z = Some (v, String "}"%char rest) ->
  parse_members (S g) (String dq X) = Some ([(k, v)], rest).
Proof. intros H1 H2. simpl. rewrite H1. simpl. rewrite H2. reflexivity. Qed.

Lemma first_print t R :
  wf_raw t ->
  exists c s', print t ++ R = String c s' /\ is_ws c = false /\ Ascii.eqb c "]"%char = false.
Proof.
  intro Hw. destruct t as [| [|] | l | b | [|x l] | [|[k v] ms]];
    try (eexists _, _; split; [reflexivity | split; reflexivity]).
  simpl in Hw. destruct (number_lexeme_start l Hw) as [c [l' [-> Hc]]].
  destruct (number_start_char c Hc) as [Hws [_ [_ [_ [_ [_ [_ [Hb _]]]]]]]].
  exists c, (l' ++ R). auto.
Qed.

Lemma parse_elems_print l :
  forall x g rest,
  Forall (fun t => wf_raw t -> forall f rest, (need t <= f)%nat -> stop rest = true ->
                   parse_value f (print t ++ rest) = Some (t, rest)) (x :: l) ->
  all_list wf_raw (x :: l) -> (sum_need need (x :: l) <= g)%nat ->
  parse_elems g (print x ++ print_items print l ++ String "]"%char rest) = Some (x :: l, rest).
Proof.
  induction l as [|y l IH]; intros x g rest HP [Hx Hl] Hg;
    inversion HP as [|? ? Px Pl]; subst; destruct g as [|g]; simpl sum_need in Hg; try lia.
  - apply parse_elems_close. apply Px; [exact Hx | lia | reflexivity].
  - cbn [print_items String.append].
    erewrite parse_elems_comma; [|apply Px; [exact Hx | lia | reflexivity]].
    rewrite app_assoc_s, (IH y g rest Pl Hl); [reflexivity|]. simpl sum_need. lia.
Qed.

Lemma parse_members_print ms :
  forall k v g rest,
  Forall (fun kv => wf_raw (snd kv) -> forall f rest, (need (snd kv) <= f)%nat ->
                    stop rest = true -> parse_value f (print (snd kv) ++ rest) = Some (snd kv, rest))
    ((k, v) :: ms) ->
  all_list (fun '(k, v) => body_ok k /\ wf_raw v) ((k, v) :: ms) ->
  (sum_need_m need ((k, v) :: ms) <= g)%nat ->
  parse_members g
    (String dq (k ++ String dq (String ":"%char (print v ++ print_members print ms ++ String "}"%char rest))))
  = Some ((k, v) :: ms, rest).
Proof.
  induction ms as [|[k' v'] ms IH]; intros k v g rest HP [[Hk Hv] Hms] Hg;
    inversion HP as [|? ? Pv Pms]; subst; destruct g as [|g]; simpl sum_need_m in Hg; try lia;
    simpl snd in Pv.
  - eapply parse_members_close; [apply Hk|]. apply Pv; [exact Hv | lia | reflexivity].
  - cbn [print_members String.append quote].
    erewrite parse_members_comma; [| apply Hk | apply Pv; [exact Hv | lia | reflexivity]].
    rewrite !app_assoc_s. cbn [String.append]. rewrite !app_assoc_s.
    rewrite (IH k' v' g rest Pms Hms); [reflexivity|]. simpl sum_need_m. lia.
Qed.

Lemma parse_print t :
  wf_raw t -> forall f rest, (need t <= f)%nat -> stop rest = true ->
  parse_value f (print t ++ rest) = Some (t, rest).
Proof.
  induction t as [| b | l | b | l IHl | ms IHms] using jraw_ind';
    intros Hw f rest Hf Hs; (destruct f as [|f]; [simpl in Hf; lia|]).
  - reflexivity.
  - destruct b; reflexivity.
  - simpl in Hw. destruct (number_lexeme_start l Hw) as [c [l' [Hl Hc]]].
    simpl print. rewrite Hl. cbn [String.append]. rewrite parse_value_num by exact Hc.
    change (String c (l' ++ rest)) with (String c l' ++ rest). rewrite <- Hl.
    rewrite (lex_number_ext _ _ _ _ (number_lexeme_lex _ Hw) Hs). reflexivity.
  - simpl print. unfold quote. cbn [String.append]. rewrite app_assoc_s. cbn [String.append].
    rewrite parse_value_dq. simpl in Hw. rewrite Hw. reflexivity.
  - destruct l as [|x l]; [reflexivity|].
    destruct Hw as [Hx Hl].
    cbn [print String.append]. rewrite !app_assoc_s. cbn [String.append].
    destruct (first_print x (print_items print l ++ String "]"%char rest) Hx)
      as [c [s' [Hp [Hws Hb]]]].
    rewrite Hp, parse_value_arr by assumption. rewrite <- Hp.
    rewrite (parse_elems_print l x f rest IHl); [reflexivity | split; assumption |].
    simpl in Hf |- *. lia.
  - destruct ms as [|[k v] ms]; [reflexivity|].
    cbn [print String.append quote].
    repeat progress (rewrite ?app_assoc_s; cbn [String.append]).
    rewrite parse_value_obj.
    rewrite (parse_members_print ms k v f rest IHms Hw); [reflexivity|].
    simpl in Hf |- *. lia.
Qed.

Lemma length_app_s a b : String.length (a ++ b) = (String.length a + String.length b)%nat.
Proof. induction a as [|c a IH]; simpl; [reflexivity | rewrite IH; reflexivity]. Qed.

Lemma need_le_length t : wf_raw t -> (need t <= String.length (print t))%nat.
Proof.
  induction t as [| b | l | b | l IHl | ms IHms] using jraw_ind'; intro Hw.
  - simpl; lia.
  - destruct b; simpl; lia.
  - simpl in Hw. destruct (number_lexeme_start l Hw) as [c [l' [-> _]]]. simpl; lia.
  - simpl; lia.
  - destruct l as [|x l]; [simpl; lia|].
    assert (Hs : forall l, Forall (fun t => wf_raw t -> (need t <= String.length (print t))%nat) l ->
                   all_list wf_raw l -> (sum_need need l <= String.length (print_items print l))%nat).
    { clear. induction l as [|y l IH]; intros HP Hw; [simpl; lia|].
      inversion HP; subst. destruct Hw as [Hy Hl]. simpl. rewrite length_app_s.
      specialize (IH H2 Hl). specialize (H1 Hy). lia. }
    inversion IHl; subst. destruct Hw as [Hx Hl].
    specialize (H1 Hx). specialize (Hs l H2 Hl).
    simpl. rewrite !length_app_s. simpl. lia.
  - destruct ms as [|[k v] ms]; [simpl; lia|].
    assert (Hs : forall ms, Forall (fun kv => wf_raw (snd kv) ->
                     (need (snd kv) <= String.length (print (snd kv)))%nat) ms ->
                   all_list (fun '(k, v) => body_ok k /\ wf_raw v) ms ->
                   (sum_need_m need ms <= String.length (print_members print ms))%nat).
    { clear. induction ms as [|[k v] ms IH]; intros HP Hw; [simpl; lia|].
      inversion HP; subst. destruct Hw as [[_ Hv] Hms]. simpl. unfold quote.
      rewrite !length_app_s. simpl. rewrite !length_app_s.
      specialize (IH H2 Hms). specialize (H1 Hv). simpl in H1. lia. }
    inversion IHms; subst. destruct Hw as [[_ Hv] Hms].
    specialize (H1 Hv). specialize (Hs ms H2 Hms). simpl in H1.
    simpl. unfold quote. rewrite !length_app_s. simpl. rewrite !length_app_s. simpl. lia.
Qed.

Lemma read_json_print t : wf_raw t -> read_json (print t) = Some t.
Proof.
  intro Hw. unfold read_json.
  pose proof (parse_print t Hw (S (2 * String.length (print t))) EmptyString) as H.
  rewrite app_nil_r_s in H. rewrite H; [reflexivity | | reflexivity].
  pose proof (need_le_length t Hw). lia.
Qed.

(** ** No newline byte inside a payload *)

Lemma has_newline_app a b : has_newline (a ++ b) = has_newline a || has_newline b.
Proof. induction a as [|c a IH]; simpl; [reflexivity | rewrite IH, orb_assoc; reflexivity]. Qed.

Lemma has_newline_escape_char c : has_newline (escape_char c) = false.
Proof. all_bytes c; reflexivity. Qed.

Lemma has_newline_escape s : has_newline (escape s) = false.
Proof.
  induction s as [|c s IH]; simpl; [reflexivity|].
  rewrite has_newline_app, has_newline_escape_char, IH. reflexivity.
Qed.

Lemma digit_not_newline c : is_digit c = true -> Ascii.eqb c newline = false.
Proof. intro H. destruct (number_start_char c) as [_ [_ [_ [_ [_ [_ [_ [_ [_ Hn]]]]]]]]]; [|exact Hn].
  rewrite H, orb_true_r. reflexivity. Qed.

Lemma lex_digits_nl s ds r : lex_digits s = (ds, r) -> has_newline ds = false.
Proof.
  revert ds r; induction s as [|c s IH]; simpl; intros ds r H.
  - inversion H; reflexivity.
  - destruct (is_digit c) eqn:Hd.
    + destruct (lex_digits s) as [ds' r'] eqn:E. inversion H; subst.
      simpl. rewrite (digit_not_newline c Hd). exact (IH ds' r eq_refl).
    + inversion H; reflexivity.
Qed.

Lemma lex_int_nl s i r : lex_int s = Some (i, r) -> has_newline i = false.
Proof.
  destruct s as [|c s]; simpl; [discriminate|].
  destruct (Ascii.eqb c "0"%char).
  - destruct s as [|c' s']; [intro H; inversion H; reflexivity|].
    destruct (is_digit c'); [discriminate|]. intro H; inversion H; reflexivity.
  - destruct (is_digit c) eqn:Hd; [|discriminate].
    destruct (lex_digits s) as [ds r'] eqn:E. intro H; inversion H; subst.
    simpl. rewrite (digit_not_newline c Hd). exact (lex_digits_nl _ _ _ E).
Qed.

Lemma lex_frac_nl s f r : lex_frac s = Some (f, r) -> has_newline f = false.
Proof.
  destruct s as [|c s]; simpl; [intro H; inversion H; reflexivity|].
  destruct (Ascii.eqb c "."%char) eqn:Ed.
  - apply Ascii.eqb_eq in Ed; subst c.
    destruct (lex_digits s) as [ds r'] eqn:E. destruct ds; [discriminate|].
    intro H; inversion H; subst. exact (lex_digits_nl _ _ _ E).
  - intro H; inversion H; reflexivity.
Qed.

Lemma lex_exp_nl s e r : lex_exp s = Some (e, r) -> has_newline e = false.
Proof.
  destruct s as [|c s]; simpl; [intro H; inversion H; reflexivity|].
  destruct (is_exp_mark c) eqn:Ee.
  - assert (Hc : Ascii.eqb c newline = false)
      by (unfold is_exp_mark in Ee; apply orb_true_iff in Ee;
          destruct Ee as [Ee|Ee]; apply Ascii.eqb_eq in Ee; subst c; reflexivity).
    destruct s as [|c' s']; [simpl; discriminate|].
    destruct (is_sign c') eqn:Es.
    + assert (Hc' : Ascii.eqb c' newline = false)
        by (unfold is_sign in Es; apply orb_true_iff in Es;
            destruct Es as [Es|Es]; apply Ascii.eqb_eq in Es; subst c'; reflexivity).
      destruct (lex_digits s') as [ds r'] eqn:E. destruct ds; [discriminate|].
      intro H; inversion H; subst. simpl. rewrite Hc, Hc'. exact (lex_digits_nl _ _ _ E).
    + destruct (lex_digits (String c' s')) as [ds r'] eqn:E. destruct ds; [discriminate|].
      intro H; inversion H; subst. simpl. rewrite Hc. exact (lex_digits_nl _ _ _ E).
  - intro H; inversion H; reflexivity.
Qed.

Lemma lex_number_nl s x r : lex_number s = Some (x, r) -> has_newline x = false.
Proof.
  unfold lex_number. intro H.
  destruct (match s with
      | String c r => if Ascii.eqb c "-"%char then ("-", r) else (EmptyString, s)
      | EmptyString => (EmptyString, EmptyString) end) as [sg s1] eqn:Es.
  assert (Hsg : has_newline sg = false).
  { destruct s as [|c s']; [inversion Es; reflexivity|].
    destruct (Ascii.eqb c "-"%char); inversion Es; reflexivity. }
  destruct (lex_int s1) as [[i s2]|] eqn:Ei; [|discriminate].
  destruct (lex_frac s2) as [[f s3]|] eqn:Ef; [|discriminate].
  destruct (lex_exp s3) as [[e s4]|] eqn:Ee; [|discriminate].
  inversion H; subst.
  rewrite !has_newline_app, Hsg, (lex_int_nl _ _ _ Ei), (lex_frac_nl _ _ _ Ef), (lex_exp_nl _ _ _ Ee).
  reflexivity.
Qed.

Lemma number_lexeme_nl l : number_lexeme l = true -> has_newline l = false.
Proof. intro H. exact (lex_number_nl _ _ _ (number_lexeme_lex l H)). Qed.

Lemma number_lexeme_decimal_any n : number_lexeme (decimal n) = true.
Proof.
  destruct (Z_le_gt_dec 0 n) as [H|H]; [exact (number_lexeme_decimal n H)|].
  destruct n as [|p|p]; try lia. reflexivity.
Qed.

(** Every printed tree without raw newlines prints without newline bytes. *)
Lemma print_no_newline t : no_nl t -> has_newline (print t) = false.
Proof.
  induction t as [| b | l | b | l IHl | ms IHms] using jraw_ind'; intro Hn.
  - reflexivity.
  - destruct b; reflexivity.
  - exact Hn.
  - simpl. unfold quote. simpl in Hn. rewrite has_newline_app, Hn. reflexivity.
  - destruct l as [|x l]; [reflexivity|].
    assert (Hs : forall l, Forall (fun t => no_nl t -> has_newline (print t) = false) l ->
                   all_list no_nl l -> has_newline (print_items print l) = false).
    { clear. induction l as [|y l IH]; intros HP Hw; [reflexivity|].
      inversion HP; subst. destruct Hw as [Hy Hl]. simpl.
      rewrite has_newline_app, (H1 Hy), (IH H2 Hl). reflexivity. }
    inversion IHl; subst. destruct Hn as [Hx Hl].
    simpl. rewrite !has_newline_app, (H1 Hx), (Hs l H2 Hl). reflexivity.
  - destruct ms as [|[k v] ms]; [reflexivity|].
    assert (Hs : forall ms, Forall (fun kv => no_nl (snd kv) -> has_newline (print (snd kv)) = false) ms ->
                   all_list (fun '(k, v) => has_newline k = false /\ no_nl v) ms ->
                   has_newline (print_members print ms) = false).
    { clear. induction ms as [|[k v] ms IH]; intros HP Hw; [reflexivity|].
      inversion HP; subst. destruct Hw as [[Hk Hv] Hms]. simpl in H1. simpl. unfold quote.
      rewrite !has_newline_app. simpl. rewrite has_newline_app, Hk, (H1 Hv), (IH H2 Hms). reflexivity. }
    inversion IHms; subst. destruct Hn as [[Hk Hv] Hms]. simpl in H1.
    simpl. unfold quote. rewrite !has_newline_app. simpl.
    rewrite !has_newline_app, Hk, (H1 Hv), (Hs ms H2 Hms). reflexivity.
Qed.

(** ** BTreeMap insertion in key order *)

Lemma map_insert_last {A} k (v : A) m :
  Forall (fun kv => String.compare (fst kv) k = Lt) m -> map_insert k v m = app m [(k, v)].
Proof.
  induction m as [|[k' v'] m IH]; intro H; [reflexivity|].
  inversion H; subst. simpl in H2. simpl.
  rewrite String.compare_antisym, H2. simpl. rewrite IH by assumption. reflexivity.
Qed.

Lemma keys_sorted_prefix {A} (acc : list (string * A)) k y m :
  keys_sorted (app acc ((k, y) :: m)) -> Forall (fun kv => String.compare (fst kv) k = Lt) acc.
Proof.
  induction acc as [|[k0 y0] acc IH]; intro H; [constructor|].
  simpl in H. destruct H as [Hf Hs]. constructor; [|exact (IH Hs)].
  simpl. rewrite Forall_forall in Hf. apply (Hf (k, y)). apply in_or_app. right. left. reflexivity.
Qed.

Lemma fold_insert_sorted {A} (m acc : list (string * A)) :
  keys_sorted (app acc m) ->
  fold_left (fun acc '(k, y) => map_insert k y acc) m acc = app acc m.
Proof.
  revert acc; induction m as [|[k y] m IH]; intros acc H; simpl.
  - rewrite app_nil_r. reflexivity.
  - rewrite (map_insert_last k y acc (keys_sorted_prefix acc k y m H)).
    rewrite IH; [rewrite <- app_assoc; reflexivity|]. rewrite <- app_assoc. exact H.
Qed.

(** ** Encoding and decoding of the payload types *)

Lemma ser_value_json v :
  exists t, ser_json (ser_value v) = Some t /\ wf_raw t /\ no_nl t /\
            forall d, value_ok d v -> de_value d t = Some v.
Proof.
  induction v as [| b | n | s | l IHl | m IHm] using Value_ind'.
  - exists RNull. repeat split; intros; reflexivity.
  - exists (RBool b). repeat split; intros; reflexivity.
  - destruct n as [n|n|x].
    + exists (RNum (decimal n)). split; [reflexivity|].
      split; [exact (number_lexeme_decimal_any n)|].
      split; [exact (number_lexeme_nl _ (number_lexeme_decimal_any n))|].
      intros d Hv. cbn [value_ok] in Hv. cbn [de_value]. rewrite parse_number_decimal by exact Hv.
      reflexivity.
    + exists (RNum (decimal_signed n)). split; [reflexivity|].
      split; [exact (number_lexeme_decimal_signed n)|].
      split; [exact (number_lexeme_nl _ (number_lexeme_decimal_signed n))|].
      intros d Hv. cbn [value_ok] in Hv. cbn [de_value]. rewrite parse_number_decimal_signed by exact Hv.
      rewrite (proj2 (Z.ltb_lt n 0)) by lia. reflexivity.
    + exists (if f64_is_finite x then RNum (ryu_format_finite x) else RNull).
      split; [reflexivity|].
      split; [destruct (f64_is_finite x); [exact (ryu_lexeme x) | exact I]|].
      split; [destruct (f64_is_finite x); [exact (number_lexeme_nl _ (ryu_lexeme x)) | exact I]|].
      intros d [Hf Hp]. rewrite Hf. cbn [de_value]. rewrite Hp, Hf. reflexivity.
  - exists (RStr (escape s)). split; [reflexivity|].
    split; [exact (body_ok_escape s)|]. split; [exact (has_newline_escape s)|].
    intros d _. simpl. rewrite unescape_escape. reflexivity.
  - assert (Hl : exists ts, map_opt ser_json (map ser_value l) = Some ts /\
                 all_list wf_raw ts /\ all_list no_nl ts /\
                 forall d, all_list (value_ok d) l -> map_opt (de_value d) ts = Some l).
    { induction IHl as [|x l [tx [Hx1 [Hx2 [Hx3 Hx4]]]] _ [ts [H1 [H2 [H3 H4]]]]].
      - exists []. repeat split; intros; reflexivity.
      - exists (tx :: ts). simpl. rewrite Hx1, H1.
        split; [reflexivity|]. split; [split; assumption|]. split; [split; assumption|].
        intros d [Hvx Hvl]. rewrite (Hx4 d Hvx), (H4 d Hvl). reflexivity. }
    destruct Hl as [ts [H1 [H2 [H3 H4]]]].
    exists (RArr ts). simpl. rewrite H1.
    split; [reflexivity|]. split; [exact H2|]. split; [exact H3|].
    intros d [Hd Hv]. destruct d as [|[|d]]; [lia|lia|].
    simpl. rewrite (H4 (S d) Hv). reflexivity.
  - assert (Hm : exists ts,
        map_opt (fun '(k, x) => let* k' := key_text k in let* x' := ser_json x in Some (k', x'))
          (map (fun '(k, x) => (SStr k, ser_value x)) m) = Some ts /\
        all_list (fun '(k, v) => body_ok k /\ wf_raw v) ts /\
        all_list (fun '(k, v) => has_newline k = false /\ no_nl v) ts /\
        forall d, all_list (fun '(_, x) => value_ok d x) m ->
          map_opt (fun '(k, x) => let* k' := unescape k in let* y := de_value d x in Some (k', y)) ts
          = Some m).
    { induction IHm as [|[k x] m [tx [Hx1 [Hx2 [Hx3 Hx4]]]] _ [ts [H1 [H2 [H3 H4]]]]].
      - exists []. repeat split; intros; reflexivity.
      - simpl snd in *. exists ((escape k, tx) :: ts). simpl. rewrite Hx1, H1.
        split; [reflexivity|].
        split; [split; [split; [exact (body_ok_escape k) | exact Hx2] | exact H2]|].
        split; [split; [split; [exact (has_newline_escape k) | exact Hx3] | exact H3]|].
        intros d [Hvx Hvm]. rewrite unescape_escape. simpl.
        rewrite (Hx4 d Hvx). simpl. rewrite (H4 d Hvm). reflexivity. }
    destruct Hm as [ts [H1 [H2 [H3 H4]]]].
    exists (RObj ts). simpl. rewrite H1.
    split; [reflexivity|]. split; [exact H2|]. split; [exact H3|].
    intros d [Hd [Hs Hv]]. destruct d as [|[|d]]; [lia|lia|].
    simpl. rewrite (H4 (S d) Hv). simpl. rewrite (fold_insert_sorted m []) by exact Hs. reflexivity.
Qed.

Lemma ser_strings l :
  map_opt ser_json (map SStr l) = Some (map (fun s => RStr (escape s)) l) /\
  all_list wf_raw (map (fun s => RStr (escape s)) l) /\
  all_list no_nl (map (fun s => RStr (escape s)) l) /\
  map_opt de_string (map (fun s => RStr (escape s)) l) = Some l.
Proof.
  induction l as [|s l [H1 [H2 [H3 H4]]]]; [repeat split|].
  simpl. rewrite H1, unescape_escape. simpl. rewrite H4.
  split; [reflexivity|]. split; [split; [exact (body_ok_escape s) | exact H2]|].
  split; [split; [exact (has_newline_escape s) | exact H3] | reflexivity].
Qed.

Ltac wf_solve :=
  simpl; repeat split;
  first [ apply body_ok_escape | apply has_newline_escape
        | apply number_lexeme_decimal_any
        | apply (number_lexeme_nl _ (number_lexeme_decimal_any _))
        | intro; reflexivity | reflexivity ].

Ltac de_solve :=
  repeat (cbn; first
    [ rewrite unescape_escape
    | rewrite parse_number_decimal by (unfold u64_limit in *; lia)
    | match goal with |- context [?a <? ?b] => rewrite (proj2 (Z.ltb_lt a b)) by lia end
    | reflexivity ]).

Lemma client_ser_de m :
  exists t, ser_json (ClientMessage.serialize m) = Some t /\ wf_raw t /\ no_nl t /\
    (ClientMessage.in_range m -> ClientMessage.deserialize initial_depth t = Some m).
Proof.
  destruct m as [tok [cn|] | nw [sid|] | [sid|] | [sid|] | [sid|] | nm [| | |] [sid|]
                | x y [sid|] | [sid|] | [sid|] | [sid|] | ix [sid|] | pth [sid|]];
    (eexists; split; [simpl; reflexivity|]);
    (split; [wf_solve|]); (split; [wf_solve|]);
    intro Hr; simpl in Hr; unfold initial_depth;
    unfold ClientMessage.deserialize, ClientMessage.de_variant, ClientMessage.session_only,
      de_struct, enum_access; de_solve.
Qed.

Ltac server_unfold :=
  unfold initial_depth, ServerMessage.deserialize, ServerMessage.de_variant,
    ServerMessage.one_string, ServerMessage.de_unit_variant, de_struct, enum_access.

Lemma server_ser_de m :
  exists t, ser_json (ServerMessage.serialize m) = Some t /\ wf_raw t /\ no_nl t /\
    (ServerMessage.in_range m -> ServerMessage.deserialize initial_depth t = Some m).
Proof.
  destruct m as [nw | names | nm cfg | nw | nm | v | msg | ok [sid|] [ex|] | | ].
  2: { destruct (ser_strings names) as [H1 [H2 [H3 H4]]].
       exists (RObj [("LayerNames", RObj [("names", RArr (map (fun s => RStr (escape s)) names))])]).
       split; [simpl; rewrite H1; reflexivity|].
       split; [simpl; repeat split; try assumption; intro; reflexivity|].
       split; [simpl; repeat split; try assumption; reflexivity|].
       intros _. server_unfold. cbn. rewrite H4. reflexivity. }
  5: { destruct (ser_value_json v) as [tv [Hv1 [Hv2 [Hv3 Hv4]]]].
       exists (RObj [("MessagePush", RObj [("message", tv)])]).
       split; [simpl; rewrite Hv1; reflexivity|].
       split; [simpl; repeat split; try assumption; intro; reflexivity|].
       split; [simpl; repeat split; try assumption; reflexivity|].
       intro Hr. server_unfold. cbn. rewrite (Hv4 126%nat Hr). reflexivity. }
  all: (eexists; split; [simpl; reflexivity|]);
    (split; [wf_solve|]); (split; [wf_solve|]);
    intro Hr; simpl in Hr; server_unfold; de_solve.
Qed.

Lemma response_ser_de r :
  exists t, ser_json (ServerResponse.serialize r) = Some t /\ wf_raw t /\ no_nl t /\
    ServerResponse.deserialize initial_depth t = Some r.
Proof.
  destruct r as [|msg]; (eexists; split; [simpl; reflexivity|]);
    (split; [wf_solve|]); (split; [wf_solve|]);
    unfold initial_depth, ServerResponse.deserialize; de_solve.
Qed.

(** ** Round trips through the text *)

Lemma client_text m :
  exists p, ClientMessage.to_string m = Some p /\ has_newline p = false /\
    (ClientMessage.in_range m -> ClientMessage.from_str p = Some m).
Proof.
  destruct (client_ser_de m) as [t [H1 [H2 [H3 H4]]]].
  exists (print t). unfold ClientMessage.to_string, to_vec. rewrite H1.
  split; [reflexivity|]. split; [apply print_no_newline; exact H3|].
  intro Hr. unfold ClientMessage.from_str. rewrite (read_json_print t H2). exact (H4 Hr).
Qed.

Lemma server_text m :
  exists p, ServerMessage.to_vec m = Some p /\ ServerMessage.as_bytes m = Some (p ++ nl) /\
    has_newline p = false /\ (ServerMessage.in_range m -> ServerMessage.from_slice p = Some m).
Proof.
  destruct (server_ser_de m) as [t [H1 [H2 [H3 H4]]]].
  exists (print t).
  assert (E : ServerMessage.to_vec m = Some (print t))
    by (unfold ServerMessage.to_vec, serde_json.to_vec, to_vec; rewrite H1; reflexivity).
  split; [exact E|]. split; [unfold ServerMessage.as_bytes; rewrite E; reflexivity|].
  split; [apply print_no_newline; exact H3|].
  intro Hr. unfold ServerMessage.from_slice. rewrite (read_json_print t H2). exact (H4 Hr).
Qed.

Lemma response_text r :
  exists p, ServerResponse.to_vec r = Some p /\ ServerResponse.as_bytes r = Some (p ++ nl) /\
    has_newline p = false /\ ServerResponse.from_slice p = Some r.
Proof.
  destruct (response_ser_de r) as [t [H1 [H2 [H3 H4]]]].
  exists (print t).
  assert (E : ServerResponse.to_vec r = Some (print t))
    by (unfold ServerResponse.to_vec, serde_json.to_vec, to_vec; rewrite H1; reflexivity).
  split; [exact E|]. split; [unfold ServerResponse.as_bytes; rewrite E; reflexivity|].
  split; [apply print_no_newline; exact H3|].
  unfold ServerResponse.from_slice. rewrite (read_json_print t H2). exact H4.
Qed.

(** ** Frames *)

Lemma split_frames_aux_frame p rest cur :
  has_newline p = false ->
  split_frames_aux (p ++ nl ++ rest) cur = (cur ++ p) :: split_frames_aux rest EmptyString.
Proof.
  revert cur; induction p as [|c p IH]; intros cur Hp.
  - unfold nl. cbn [split_frames_aux String.append].
    rewrite Ascii.eqb_refl, app_nil_r_s. reflexivity.
  - cbn [has_newline] in Hp. apply orb_false_iff in Hp as [Hc Hp].
    cbn [split_frames_aux String.append]. rewrite Hc, IH by exact Hp.
    rewrite app_assoc_s. reflexivity.
Qed.

Lemma split_frames_two p1 p2 :
  has_newline p1 = false -> has_newline p2 = false ->
  split_frames ((p1 ++ nl) ++ (p2 ++ nl)) = [p1; p2].
Proof.
  intros H1 H2. unfold split_frames. rewrite app_assoc_s.
  rewrite split_frames_aux_frame by exact H1.
  rewrite <- (app_nil_r_s nl). rewrite split_frames_aux_frame by exact H2.
  reflexivity.
Qed.

(** ** The derived struct visitor's slots *)

Lemma field_index_nth names k i : field_index names k = Some i -> nth_error names i = Some k.
Proof.
  revert i; induction names as [|n ns IH]; intros i H; cbn [field_index] in H; [discriminate|].
  destruct (String.eqb n k) eqn:E.
  - injection H as <-. apply String.eqb_eq in E. subst. reflexivity.
  - destruct (field_index ns k) as [j|] eqn:Ej; cbn in H; [|discriminate].
    injection H as <-. apply IH. reflexivity.
Qed.


Lemma set_slot_other j v slots slots' i :
  set_slot j v slots = Some slots' -> j <> i -> nth_error slots' i = nth_error slots i.
Proof.
  revert j slots' i; induction slots as [|x r IH]; intros j slots' i H Hne;
    destruct j as [|j']; cbn in H; try discriminate.
  - destruct x; [discriminate|]. injection H as <-. destruct i; [congruence|reflexivity].
  - destruct (set_slot j' v r) as [r'|] eqn:E; cbn in H; [|discriminate].
    injection H as <-. destruct i as [|i']; [reflexivity|]. cbn. apply (IH j'); [exact E|congruence].
Qed.

Lemma set_slot_same j v slots slots' :
  set_slot j v slots = Some slots' -> nth_error slots' j = Some (Some v) /\ nth_error slots j = Some None.
Proof.
  revert j slots'; induction slots as [|x r IH]; intros j slots' H;
    destruct j as [|j']; cbn in H; try discriminate.
  - destruct x; [discriminate|]. injection H as <-. split; reflexivity.
  - destruct (set_slot j' v r) as [r'|] eqn:E; cbn in H; [|discriminate].
    injection H as <-. exact (IH j' r' E).
Qed.

Lemma set_slot_keep j w slots slots' i v :
  set_slot j w slots = Some slots' -> nth_error slots i = Some (Some v) ->
  nth_error slots' i = Some (Some v).
Proof.
  intros H Hi. destruct (Nat.eq_dec j i) as [<-|Hne].
  - destruct (set_slot_same _ _ _ _ H) as [_ H0]. congruence.
  - rewrite (set_slot_other _ _ _ _ _ H Hne). exact Hi.
Qed.

Lemma collect_keep names ms slots slots' i v :
  collect_fields names ms slots = Some slots' ->
  nth_error slots i = Some (Some v) -> nth_error slots' i = Some (Some v).
Proof.
  revert slots; induction ms as [|[k x] ms IH]; intros slots H Hi; cbn [collect_fields] in H.
  - injection H as <-. exact Hi.
  - destruct (unescape k) as [k'|]; cbn in H; [|discriminate].
    destruct (field_index names k') as [j|].
    + destruct (set_slot j x slots) as [s1|] eqn:E; cbn in H; [|discriminate].
      apply (IH s1 H). exact (set_slot_keep _ _ _ _ _ _ E Hi).
    + exact (IH slots H Hi).
Qed.

Lemma collect_untouched names ms slots slots' i :
  collect_fields names ms slots = Some slots' ->
  (forall k x k', In (k, x) ms -> unescape k = Some k' -> field_index names k' <> Some i) ->
  nth_error slots' i = nth_error slots i.
Proof.
  revert slots; induction ms as [|[k x] ms IH]; intros slots H Hk; cbn [collect_fields] in H.
  - injection H as <-. reflexivity.
  - destruct (unescape k) as [k'|] eqn:Ek; cbn in H; [|discriminate].
    destruct (field_index names k') as [j|] eqn:Ej.
    + destruct (set_slot j x slots) as [s1|] eqn:E; cbn in H; [|discriminate].
      rewrite (IH s1 H).
      * apply (set_slot_other _ _ _ _ _ E). intros ->.
        exact (Hk k x k' (or_introl eq_refl) Ek Ej).
      * intros k1 x1 k1' Hin. apply (Hk k1 x1). right. exact Hin.
    + apply (IH slots H). intros k1 x1 k1' Hin. apply (Hk k1 x1). right. exact Hin.
Qed.

Lemma collect_found names ms slots slots' k x f i :
  collect_fields names ms slots = Some slots' -> In (k, x) ms -> unescape k = Some f ->
  field_index names f = Some i -> nth_error slots' i = Some (Some x).
Proof.
  revert slots; induction ms as [|[k0 x0] ms IH]; intros slots H Hin Hk Hf; [destruct Hin|].
  cbn [collect_fields] in H.
  destruct Hin as [Heq|Hin].
  - injection Heq as -> ->. rewrite Hk in H. cbn in H. rewrite Hf in H.
    destruct (set_slot i x slots) as [s1|] eqn:E; cbn in H; [|discriminate].
    apply (collect_keep _ _ _ _ _ _ H). exact (proj1 (set_slot_same _ _ _ _ E)).
  - destruct (unescape k0) as [k'|]; cbn in H; [|discriminate].
    destruct (field_index names k') as [j|].
    + destruct (set_slot j x0 slots) as [s1|] eqn:E; cbn in H; [|discriminate].
      exact (IH s1 H Hin Hk Hf).
    + exact (IH slots H Hin Hk Hf).
Qed.

Lemma collect_app names ms extra slots :
  collect_fields names (app ms extra) slots
  = obind (collect_fields names ms slots) (collect_fields names extra).
Proof.
  revert slots; induction ms as [|[k x] ms IH]; intro slots; [reflexivity|].
  cbn [app collect_fields]. destruct (unescape k) as [k'|]; cbn; [|reflexivity].
  destruct (field_index names k') as [j|].
  - destruct (set_slot j x slots); cbn; [apply IH|reflexivity].
  - apply IH.
Qed.


Lemma de_struct_missing names d ms f d' sl :
  (forall k x, In (k, x) ms -> unescape k <> Some f) ->
  de_struct names d (RObj ms) = Some (d', sl) ->
  forall i, field_index names f = Some i -> nth_error sl i = Some None.
Proof.
  intros Hms H i Hi. destruct d as [|[|d0]]; cbn in H; try discriminate.
  destruct (collect_fields names ms (repeat None (length names))) as [sl0|] eqn:E;
    cbn in H; [|discriminate].
  injection H as _ <-.
  assert (Hlt : (i < length names)%nat)
    by (apply nth_error_Some; rewrite (field_index_nth _ _ _ Hi); discriminate).
  rewrite (collect_untouched _ _ _ _ i E).
  - apply nth_error_repeat. exact Hlt.
  - intros k x k' Hin Hk Hk'. apply (Hms k x Hin). rewrite Hk.
    apply field_index_nth in Hk'. apply field_index_nth in Hi. congruence.
Qed.

Lemma de_struct_found names d ms k x f i d' sl :
  de_struct names d (RObj ms) = Some (d', sl) -> In (k, x) ms -> unescape k = Some f ->
  field_index names f = Some i -> nth_error sl i = Some (Some x).
Proof.
  intros H Hin Hk Hi. destruct d as [|[|d0]]; cbn in H; try discriminate.
  destruct (collect_fields names ms (repeat None (length names))) as [sl0|] eqn:E;
    cbn in H; [|discriminate].
  injection H as _ <-. exact (collect_found _ _ _ _ _ _ _ _ E Hin Hk Hi).
Qed.


Lemma de_struct_arr_len names d l :
  length l <> length names -> de_struct names d (RArr l) = None.
Proof.
  intro H. destruct d as [|[|d0]]; [reflexivity|reflexivity|]. cbn [de_struct].
  destruct (Nat.eqb (length l) (length names)) eqn:E; [|reflexivity].
  apply Nat.eqb_eq in E. contradiction.
Qed.

(** ** The [u16] range *)

Lemma is_digit_ge c : is_digit c = true -> 48 <= Z.of_nat (byte_of c).
Proof.
  unfold is_digit. intro H. apply andb_true_iff in H as [H _].
  apply Nat.leb_le in H. lia.
Qed.

Lemma digits_value_aux_nonneg acc ds :
  all_digits ds = true -> 0 <= acc -> 0 <= digits_value_aux acc ds.
Proof.
  revert acc; induction ds as [|c ds IH]; intros acc H Ha; [exact Ha|].
  cbn [all_digits] in H. apply andb_true_iff in H as [Hc H].
  cbn [digits_value_aux]. apply IH; [exact H|]. pose proof (is_digit_ge c Hc). lia.
Qed.

Lemma parse_number_u64_nonneg l n : parse_number l = Some (PU64 n) -> 0 <= n.
Proof.
  unfold parse_number. destruct l as [|c ds]; [discriminate|].
  destruct (Ascii.eqb c "-"%char && all_digits ds).
  - destruct ((1 <=? digits_value ds) && (digits_value ds <=? i64_limit)); [discriminate|].
    destruct (f64_from_lexeme (String c ds)); discriminate.
  - destruct (all_digits (String c ds)) eqn:E.
    + destruct (digits_value (String c ds) <? u64_limit).
      * intro H. injection H as <-. apply digits_value_aux_nonneg; [exact E|lia].
      * destruct (f64_from_lexeme (String c ds)); discriminate.
    + destruct (f64_from_lexeme (String c ds)); discriminate.
Qed.

Lemma de_u16_range t n : de_u16 t = Some n -> 0 <= n < 65536.
Proof.
  unfold de_u16. destruct t as [| |l| | |]; try discriminate.
  destruct (parse_number l) as [[m|m|x]|] eqn:E; try discriminate.
  - destruct (m <? 65536) eqn:Lt; [|discriminate].
    intro H. injection H as <-. apply Z.ltb_lt in Lt.
    pose proof (parse_number_u64_nonneg _ _ E). lia.
  - destruct ((0 <=? m) && (m <? 65536)) eqn:B; [|discriminate].
    intro H. injection H as <-. apply andb_true_iff in B as [B1 B2].
    apply Z.leb_le in B1. apply Z.ltb_lt in B2. lia.
Qed.

(** ** Which variant a payload decodes to *)

Ltac break_some H :=
  repeat match type of H with
  | obind ?o _ = Some _ => let E := fresh "E" in destruct o eqn:E; [cbn in H | discriminate H]
  | (match ?o with _ => _ end) = Some _ =>
      let E := fresh "E" in destruct o eqn:E; try discriminate H
  end.

Lemma client_de_variant_name name d x m :
  ClientMessage.de_variant name d x = Some m -> name = ClientMessage.variant_name m.
Proof.
  unfold ClientMessage.de_variant, ClientMessage.session_only. intro H. break_some H;
    injection H as <-; cbn;
    match goal with E : String.eqb name ?s = true |- _ => apply String.eqb_eq in E; exact E end.
Qed.

Lemma client_deserialize_name d t m :
  ClientMessage.deserialize d t = Some m ->
  exists name d' c, enum_access d t = Some (name, Some (d', c)) /\
    ClientMessage.de_variant name d' c = Some m.
Proof.
  unfold ClientMessage.deserialize.
  destruct (enum_access d t) as [[name [[d' c]|]]|]; intro H; try discriminate.
  exists name, d', c. split; [reflexivity|exact H].
Qed.

Lemma client_de_variant_set_mouse name d x vx vy sid :
  ClientMessage.de_variant name d x = Some (ClientMessage.SetMouse vx vy sid) ->
  0 <= vx < 65536 /\ 0 <= vy < 65536.
Proof.
  unfold ClientMessage.de_variant, ClientMessage.session_only. intro H. break_some H;
    try discriminate H; injection H as <- <- <-.
  match goal with
  | E1 : req de_u16 ?s0 = Some _, E2 : req de_u16 ?s1 = Some _ |- _ =>
      destruct s0; [|discriminate E1]; destruct s1; [|discriminate E2];
      cbn in E1, E2; split; [exact (de_u16_range _ _ E1) | exact (de_u16_range _ _ E2)]
  end.
Qed.

Lemma client_de_variant_unknown name d x :
  ~ In name ClientMessage.variant_names -> ClientMessage.de_variant name d x = None.
Proof.
  intro Hn. unfold ClientMessage.de_variant.
  repeat match goal with
  | |- context [String.eqb name ?s] =>
      let E := fresh "E" in destruct (String.eqb name s) eqn:E;
      [apply String.eqb_eq in E; subst name; exfalso; apply Hn; cbn; tauto|]
  end; reflexivity.
Qed.

Lemma server_de_variant_unknown name d x :
  ~ In name ServerMessage.variant_names ->
  ServerMessage.de_variant name d x = None /\ ServerMessage.de_unit_variant name = None.
Proof.
  intro Hn. unfold ServerMessage.de_variant, ServerMessage.de_unit_variant.
  repeat match goal with
  | |- context [String.eqb name ?s] =>
      let E := fresh "E" in destruct (String.eqb name s) eqn:E;
      [apply String.eqb_eq in E; subst name; exfalso; apply Hn; cbn; tauto|]
  end; split; reflexivity.
Qed.

Lemma tagged_map_bad_tag d ms tag acc k v :
  In (k, v) ms -> unescape k = Some "status" -> ServerResponse.de_tag v = None ->
  ServerResponse.tagged_map d ms tag acc = None.
Proof.
  revert tag acc; induction ms as [|[k0 v0] ms IH]; intros tag acc Hin Hk Hv; [destruct Hin|].
  cbn [ServerResponse.tagged_map]. destruct Hin as [Heq|Hin].
  - injection Heq as -> ->. rewrite Hk. cbn. destruct tag; [reflexivity|]. rewrite Hv. reflexivity.
  - destruct (unescape k0) as [k'|]; cbn; [|reflexivity].
    destruct (String.eqb k' "status").
    + destruct tag; [reflexivity|]. destruct (ServerResponse.de_tag v0); cbn; [apply IH; assumption|reflexivity].
    + destruct (de_content d v0); cbn; [apply IH; assumption|reflexivity].
Qed.

Lemma de_tag_unknown v s :
  de_string v = Some s -> ~ In s ServerResponse.variant_names -> ServerResponse.de_tag v = None.
Proof.
  intros Hv Hn. unfold ServerResponse.de_tag. rewrite Hv. cbn.
  destruct (String.eqb s "Ok") eqn:E1.
  - apply String.eqb_eq in E1. subst. exfalso. apply Hn. left. reflexivity.
  - destruct (String.eqb s "Error") eqn:E2; [|reflexivity].
    apply String.eqb_eq in E2. subst. exfalso. apply Hn. right. left. reflexivity.
Qed.

(** ** Unknown entries of an internally tagged map *)




(** ** Text after a payload *)

(** Objects, arrays, strings and keywords end with their last byte, so the
    reader stops there whatever follows (a number needs [stop]). *)
Lemma parse_print_nonnum t :
  wf_raw t -> match t with RNum _ => False | _ => True end ->
  forall f rest, (need t <= f)%nat -> parse_value f (print t ++ rest) = Some (t, rest).
Proof.
  intros Hw Hn f rest Hf. destruct f as [|f]; [destruct t; simpl in Hf; lia|].
  destruct t as [| b | l | b | l | ms]; [reflexivity | destruct b; reflexivity | contradiction | | | ].
  - simpl print. unfold quote. cbn [String.append]. rewrite app_assoc_s. cbn [String.append].
    rewrite parse_value_dq. simpl in Hw. rewrite Hw. reflexivity.
  - destruct l as [|x l]; [reflexivity|]. destruct Hw as [Hx Hl].
    cbn [print String.append]. rewrite !app_assoc_s. cbn [String.append].
    destruct (first_print x (print_items print l ++ String "]"%char rest) Hx)
      as [c [s' [Hp [Hws Hb]]]].
    rewrite Hp, parse_value_arr by assumption. rewrite <- Hp.
    rewrite (parse_elems_print l x f rest); [reflexivity | | split; assumption |].
    + apply Forall_forall. intros y _. exact (parse_print y).
    + simpl in Hf |- *. lia.
  - destruct ms as [|[k v] ms]; [reflexivity|].
    cbn [print String.append quote].
    repeat progress (rewrite ?app_assoc_s; cbn [String.append]).
    rewrite parse_value_obj.
    rewrite (parse_members_print ms k v f rest); [reflexivity | | exact Hw |].
    + apply Forall_forall. intros kv _. exact (parse_print (snd kv)).
    + simpl in Hf |- *. lia.
Qed.

Lemma read_json_print_rest t rest :
  wf_raw t -> match t with RNum _ => False | _ => True end ->
  read_json (print t ++ rest) = match skip_ws rest with EmptyString => Some t | _ => None end.
Proof.
  intros Hw Hn. unfold read_json.
  rewrite (parse_print_nonnum t Hw Hn).
  - destruct (skip_ws rest); reflexivity.
  - pose proof (need_le_length t Hw). rewrite length_app_s. lia.
Qed.

Lemma client_ser_top m t :
  ser_json (ClientMessage.serialize m) = Some t -> match t with RNum _ => False | _ => True end.
Proof.
  unfold ClientMessage.serialize. cbn [ser_json].
  destruct (map_opt _ _); cbn; intro H; [injection H as <-; exact I | discriminate].
Qed.

Lemma server_ser_top m t :
  ser_json (ServerMessage.serialize m) = Some t -> match t with RNum _ => False | _ => True end.
Proof.
  intro H. destruct m; cbn [ServerMessage.serialize ser_json] in H;
    try (injection H as <-; exact I);
    destruct (map_opt _ _); cbn in H; try discriminate; injection H as <-; exact I.
Qed.

Lemma response_ser_top r t :
  ser_json (ServerResponse.serialize r) = Some t -> match t with RNum _ => False | _ => True end.
Proof.
  intro H. destruct r; cbn [ServerResponse.serialize ser_json] in H;
    destruct (map_opt _ _); cbn in H; try discriminate; injection H as <-; exact I.
Qed.

Lemma client_text_rest m :
  exists p, ClientMessage.to_string m = Some p /\ has_newline p = false /\
    (ClientMessage.in_range m -> forall rest, ClientMessage.from_str (p ++ rest)
       = match skip_ws rest with EmptyString => Some m | _ => None end).
Proof.
  destruct (client_ser_de m) as [t [H1 [H2 [H3 H4]]]].
  exists (print t). unfold ClientMessage.to_string, to_vec. rewrite H1.
  split; [reflexivity|]. split; [apply print_no_newline; exact H3|].
  intros Hr rest. unfold ClientMessage.from_str.
  rewrite (read_json_print_rest t rest H2 (client_ser_top m t H1)).
  destruct (skip_ws rest); [exact (H4 Hr) | reflexivity].
Qed.

Lemma server_text_rest m :
  exists p, ServerMessage.to_vec m = Some p /\ ServerMessage.as_bytes m = Some (p ++ nl) /\
    (ServerMessage.in_range m -> forall rest, ServerMessage.from_slice (p ++ rest)
       = match skip_ws rest with EmptyString => Some m | _ => None end).
Proof.
  destruct (server_ser_de m) as [t [H1 [H2 [H3 H4]]]].
  exists (print t).
  assert (E : ServerMessage.to_vec m = Some (print t))
    by (unfold ServerMessage.to_vec, serde_json.to_vec, to_vec; rewrite H1; reflexivity).
  split; [exact E|]. split; [unfold ServerMessage.as_bytes; rewrite E; reflexivity|].
  intros Hr rest. unfold ServerMessage.from_slice.
  rewrite (read_json_print_rest t rest H2 (server_ser_top m t H1)).
  destruct (skip_ws rest); [exact (H4 Hr) | reflexivity].
Qed.

Lemma response_text_rest r :
  exists p, ServerResponse.to_vec r = Some p /\ ServerResponse.as_bytes r = Some (p ++ nl) /\
    forall rest, ServerResponse.from_slice (p ++ rest)
      = match skip_ws rest with EmptyString => Some r | _ => None end.
Proof.
  destruct (response_ser_de r) as [t [H1 [H2 [H3 H4]]]].
  exists (print t).
  assert (E : ServerResponse.to_vec r = Some (print t))
    by (unfold ServerResponse.to_vec, serde_json.to_vec, to_vec; rewrite H1; reflexivity).
  split; [exact E|]. split; [unfold ServerResponse.as_bytes; rewrite E; reflexivity|].
  intro rest. unfold ServerResponse.from_slice.
  rewrite (read_json_print_rest t rest H2 (response_ser_top r t H1)).
  destruct (skip_ws rest); [exact H4 | reflexivity].
Qed.

(** ** Duplicate entries *)

Lemma In_field_index names f : In f names -> exists i, field_index names f = Some i.
Proof.
  induction names as [|n ns IH]; intro H; [destruct H|].
  cbn [field_index]. destruct (String.eqb n f) eqn:E; [exists O; reflexivity|].
  destruct H as [->|H]; [rewrite String.eqb_refl in E; discriminate|].
  destruct (IH H) as [i Hi]. exists (S i). rewrite Hi. reflexivity.
Qed.

Lemma set_slot_filled i v w slots :
  nth_error slots i = Some (Some v) -> set_slot i w slots = None.
Proof.
  intro H. destruct (set_slot i w slots) as [s|] eqn:E; [|reflexivity].
  destruct (set_slot_same _ _ _ _ E) as [_ H']. congruence.
Qed.

Lemma collect_dup names ms1 k1 v1 ms2 k2 v2 ms3 f slots :
  In f names -> unescape k1 = Some f -> unescape k2 = Some f ->
  collect_fields names (app ms1 ((k1, v1) :: app ms2 ((k2, v2) :: ms3))) slots = None.
Proof.
  intros Hf H1 H2. destruct (In_field_index names f Hf) as [i Hi]. rewrite collect_app.
  destruct (collect_fields names ms1 slots) as [s1|]; cbn; [|reflexivity].
  rewrite H1. cbn. rewrite Hi.
  destruct (set_slot i v1 s1) as [s2|] eqn:E2; cbn; [|reflexivity].
  rewrite collect_app.
  destruct (collect_fields names ms2 s2) as [s3|] eqn:E3; cbn; [|reflexivity].
  rewrite H2. cbn. rewrite Hi.
  rewrite (set_slot_filled i v1 v2 s3); [reflexivity|].
  exact (collect_keep _ _ _ _ _ _ E3 (proj1 (set_slot_same _ _ _ _ E2))).
Qed.

Lemma de_struct_dup names d ms1 k1 v1 ms2 k2 v2 ms3 f :
  In f names -> unescape k1 = Some f -> unescape k2 = Some f ->
  de_struct names d (RObj (app ms1 ((k1, v1) :: app ms2 ((k2, v2) :: ms3)))) = None.
Proof.
  intros Hf H1 H2. destruct d as [|[|d0]]; try reflexivity. cbn [de_struct].
  rewrite (collect_dup _ _ _ _ _ _ _ _ f _ Hf H1 H2). reflexivity.
Qed.

Lemma client_de_variant_dup name d ms1 k1 v1 ms2 k2 v2 ms3 f :
  In f (ClientMessage.fields_of name) -> unescape k1 = Some f -> unescape k2 = Some f ->
  ClientMessage.de_variant name d (RObj (app ms1 ((k1, v1) :: app ms2 ((k2, v2) :: ms3)))) = None.
Proof.
  intros Hf H1 H2.
  destruct (in_dec string_dec name ClientMessage.variant_names) as [Hn|Hn];
    [|apply client_de_variant_unknown; exact Hn].
  cbn in Hn. decompose [or] Hn; try contradiction; subst;
    unfold ClientMessage.de_variant, ClientMessage.session_only; cbn -[de_struct];
    rewrite (de_struct_dup _ _ _ _ _ _ _ _ _ f) by first [exact Hf | exact H1 | exact H2];
    reflexivity.
Qed.

Lemma server_de_variant_dup name d ms1 k1 v1 ms2 k2 v2 ms3 f :
  In f (ServerMessage.fields_of name) -> unescape k1 = Some f -> unescape k2 = Some f ->
  ServerMessage.de_variant name d (RObj (app ms1 ((k1, v1) :: app ms2 ((k2, v2) :: ms3)))) = None.
Proof.
  intros Hf H1 H2.
  destruct (in_dec string_dec name ServerMessage.variant_names) as [Hn|Hn];
    [|apply server_de_variant_unknown; exact Hn].
  cbn in Hn. decompose [or] Hn; try contradiction; subst;
    try (cbn in Hf; contradiction);
    unfold ServerMessage.de_variant, ServerMessage.one_string; cbn -[de_struct];
    rewrite (de_struct_dup _ _ _ _ _ _ _ _ _ f) by first [exact Hf | exact H1 | exact H2];
    reflexivity.
Qed.

Lemma tagged_map_tagged d ms tg acc k v :
  In (k, v) ms -> unescape k = Some "status" -> ServerResponse.tagged_map d ms (Some tg) acc = None.
Proof.
  revert acc; induction ms as [|[k0 v0] ms IH]; intros acc Hin Hk; [destruct Hin|].
  cbn [ServerResponse.tagged_map]. destruct Hin as [Heq|Hin].
  - injection Heq as -> ->. rewrite Hk. reflexivity.
  - destruct (unescape k0) as [k'|]; cbn; [|reflexivity].
    destruct (String.eqb k' "status"); [reflexivity|].
    destruct (de_content d v0); cbn; [apply IH; assumption|reflexivity].
Qed.

Lemma tagged_map_dup d ms1 k1 v1 rest k2 v2 tag acc :
  unescape k1 = Some "status" -> unescape k2 = Some "status" -> In (k2, v2) rest ->
  ServerResponse.tagged_map d (app ms1 ((k1, v1) :: rest)) tag acc = None.
Proof.
  intros H1 H2 Hin. revert tag acc; induction ms1 as [|[k0 v0] ms IH]; intros tag acc.
  - cbn [app ServerResponse.tagged_map]. rewrite H1. cbn.
    destruct tag; [reflexivity|]. destruct (ServerResponse.de_tag v1); cbn; [|reflexivity].
    exact (tagged_map_tagged _ _ _ _ _ _ Hin H2).
  - cbn [app ServerResponse.tagged_map]. destruct (unescape k0) as [k'|]; cbn; [|reflexivity].
    destruct (String.eqb k' "status").
    + destruct tag; [reflexivity|]. destruct (ServerResponse.de_tag v0); cbn; [apply IH|reflexivity].
    + destruct (de_content d v0); cbn; [apply IH|reflexivity].
Qed.

(** ** Unit variants *)

Lemma fake_key_of_name s a :
  FakeKeyActionMessage.of_name s = Some a <-> s = FakeKeyActionMessage.variant_name a.
Proof.
  unfold FakeKeyActionMessage.of_name. split.
  - intro H. repeat match type of H with
    | context [String.eqb s ?n] =>
        let E := fresh "E" in destruct (String.eqb s n) eqn:E;
        [apply String.eqb_eq in E; subst s; injection H as <-; reflexivity|]
    end. discriminate H.
  - intros ->. destruct a; reflexivity.
Qed.

Lemma ascii_compare_trans a b c :
  Ascii.compare a b = Lt -> Ascii.compare b c = Lt -> Ascii.compare a c = Lt.
Proof. unfold Ascii.compare. rewrite !N.compare_lt_iff. lia. Qed.

Lemma string_compare_trans a b c :
  String.compare a b = Lt -> String.compare b c = Lt -> String.compare a c = Lt.
Proof.
  revert b c; induction a as [|x a IH]; intros [|y b] [|z c]; cbn; try discriminate; auto.
  destruct (Ascii.compare x y) eqn:E1; destruct (Ascii.compare y z) eqn:E2; intros H1 H2;
    try discriminate.
  - apply Ascii.compare_eq_iff in E1, E2. subst. replace (Ascii.compare z z) with Eq by (unfold Ascii.compare; symmetry; apply N.compare_refl). exact (IH _ _ H1 H2).
  - apply Ascii.compare_eq_iff in E1. subst. rewrite E2. reflexivity.
  - apply Ascii.compare_eq_iff in E2. subst. rewrite E1. reflexivity.
  - rewrite (ascii_compare_trans _ _ _ E1 E2). reflexivity.
Qed.

Lemma all_list_In {A} (P : A -> Prop) l : all_list P l <-> forall x, In x l -> P x.
Proof.
  induction l as [|x l IH]; cbn; [split; [intros _ _ []|intros; exact I]|].
  rewrite IH. split.
  - intros [Hx Hl] y [<-|Hy]; auto.
  - intro H. split; [apply H; left; reflexivity | intros y Hy; apply H; right; exact Hy].
Qed.

Lemma map_insert_In {A} k (v : A) m kv :
  In kv (map_insert k v m) -> kv = (k, v) \/ In kv m.
Proof.
  induction m as [|[k' v'] m IH]; cbn; [intros [<-|[]]; left; reflexivity|].
  destruct (String.compare k k'); cbn.
  - intros [<-|H]; [left; reflexivity | right; right; exact H].
  - intros [<-|H]; [left; reflexivity | right; exact H].
  - intros [<-|H]; [right; left; reflexivity|]. destruct (IH H) as [E|E]; [left; exact E | right; right; exact E].
Qed.

Lemma map_insert_sorted {A} k (v : A) m : keys_sorted m -> keys_sorted (map_insert k v m).
Proof.
  induction m as [|[k' v'] m IH]; cbn; [intros _; split; [constructor | exact I]|].
  intros [Hf Hs]. destruct (String.compare k k') eqn:E.
  - apply String.compare_eq_iff in E. subst k'. cbn. split; assumption.
  - cbn. split; [|split; assumption].
    constructor; [exact E|]. rewrite Forall_forall in Hf |- *.
    intros x Hx. exact (string_compare_trans _ _ _ E (Hf x Hx)).
  - cbn. split; [|exact (IH Hs)].
    rewrite Forall_forall in Hf |- *. intros x Hx.
    destruct (map_insert_In _ _ _ _ Hx) as [->|Hm]; [|exact (Hf x Hm)].
    cbn. rewrite String.compare_antisym, E. reflexivity.
Qed.

Lemma fold_insert_props (P : Value.t -> Prop) kvs acc :
  keys_sorted acc -> all_list (fun '(_, x) => P x) acc -> (forall k x, In (k, x) kvs -> P x) ->
  let r := fold_left (fun acc '(k, y) => map_insert k y acc) kvs acc in
  keys_sorted r /\ all_list (fun '(_, x) => P x) r.
Proof.
  revert acc; induction kvs as [|[k y] kvs IH]; intros acc Hs Ha Hk; cbn; [split; assumption|].
  apply IH.
  - apply map_insert_sorted. exact Hs.
  - rewrite all_list_In in Ha |- *. intros [k1 x1] Hin.
    destruct (map_insert_In _ _ _ _ Hin) as [E|E];
      [injection E as -> ->; exact (Hk k y (or_introl eq_refl)) | exact (Ha _ E)].
  - intros k1 x1 Hin. exact (Hk k1 x1 (or_intror Hin)).
Qed.

Lemma map_opt_In {A B} (f : A -> option B) l r y :
  map_opt f l = Some r -> In y r -> exists x, In x l /\ f x = Some y.
Proof.
  revert r; induction l as [|x l IH]; intros r H Hy; cbn in H.
  - injection H as <-. destruct Hy.
  - destruct (f x) as [fx|] eqn:Ef; cbn in H; [|discriminate].
    destruct (map_opt f l) as [rl|] eqn:El; cbn in H; [|discriminate].
    injection H as <-. destruct Hy as [<-|Hy]; [exists x; split; [left; reflexivity | exact Ef]|].
    destruct (IH rl eq_refl Hy) as [x' [Hx' Hf']]. exists x'. split; [right; exact Hx' | exact Hf'].
Qed.

Lemma some_inj {A} (x y : A) : Some x = Some y -> x = y.
Proof. intro H. injection H as ->. reflexivity. Qed.

Lemma de_value_sorted t : forall d v, de_value d t = Some v -> objects_sorted v.
Proof.
  induction t as [| b | l | b | l IHl | ms IHms] using jraw_ind'; intros d v H.
  - apply some_inj in H. rewrite <- H. exact I.
  - apply some_inj in H. rewrite <- H. exact I.
  - cbn [de_value] in H. destruct (parse_number l) as [[n|n|x]|]; [| | |discriminate H];
      apply some_inj in H; rewrite <- H; [exact I | exact I | destruct (f64_is_finite x); exact I].
  - cbn [de_value] in H. destruct (unescape b); cbn [option_map] in H; [|discriminate H].
    apply some_inj in H. rewrite <- H. exact I.
  - cbn [de_value] in H. destruct d as [|[|d]]; try discriminate H.
    destruct (map_opt (de_value (S d)) l) as [vs|] eqn:E; cbn [option_map] in H; [|discriminate H].
    apply some_inj in H. rewrite <- H. cbn [objects_sorted]. apply all_list_In. intros y Hy.
    destruct (map_opt_In _ _ _ _ E Hy) as [x [Hx Hf]].
    rewrite Forall_forall in IHl. exact (IHl x Hx _ _ Hf).
  - cbn [de_value] in H. destruct d as [|[|d]]; try discriminate H.
    match type of H with option_map _ ?o = _ => destruct o as [kvs|] eqn:E end;
      cbn [option_map] in H; [|discriminate H].
    apply some_inj in H. rewrite <- H. cbn [objects_sorted].
    apply (fold_insert_props objects_sorted kvs []); [exact I | exact I |].
    intros k y Hin. destruct (map_opt_In _ _ _ _ E Hin) as [[k0 x] [Hx Hf]].
    destruct (unescape k0); cbn [obind] in Hf; [|discriminate Hf].
    destruct (de_value (S d) x) as [y'|] eqn:Ey; cbn [obind] in Hf; [|discriminate Hf].
    apply some_inj in Hf. injection Hf as _ Hy. rewrite <- Hy.
    rewrite Forall_forall in IHms. exact (IHms (k0, x) Hx _ _ Ey).
Qed.

Lemma server_de_variant_push name d x v :
  ServerMessage.de_variant name d x = Some (ServerMessage.MessagePush v) ->
  exists d' t, de_value d' t = Some v.
Proof.
  unfold ServerMessage.de_variant, ServerMessage.one_string. intro H. break_some H;
    try discriminate H.
  apply some_inj in H. injection H as <-.
  destruct o as [t0|]; [|discriminate]. exists n, t0. exact E9.
Qed.

Lemma push_sorted s v :
  ServerMessage.from_slice s = Some (ServerMessage.MessagePush v) -> objects_sorted v.
Proof.
  unfold ServerMessage.from_slice, ServerMessage.deserialize.
  destruct (read_json s) as [j|]; cbn [obind]; [|discriminate].
  destruct (enum_access initial_depth j) as [[name [[d' c]|]]|]; intro H; try discriminate H.
  - destruct (server_de_variant_push _ _ _ _ H) as [d0 [t0 Ht]]. exact (de_value_sorted _ _ _ Ht).
  - unfold ServerMessage.de_unit_variant in H.
    destruct (String.eqb name "AuthRequired"); [discriminate H|].
    destruct (String.eqb name "SessionExpired"); discriminate H.
Qed.

Lemma tagged_map_no_status d ms acc r :
  (forall k v, In (k, v) ms -> unescape k <> Some "status") ->
  ServerResponse.tagged_map d ms None acc = Some r -> fst r = None.
Proof.
  revert acc; induction ms as [|[k v] ms IH]; intros acc Hn H; cbn [ServerResponse.tagged_map] in H.
  - apply some_inj in H. rewrite <- H. reflexivity.
  - destruct (unescape k) as [k'|] eqn:Ek; cbn [obind] in H; [|discriminate H].
    destruct (String.eqb k' "status") eqn:Es.
    + apply String.eqb_eq in Es. subst k'. exfalso. exact (Hn k v (or_introl eq_refl) Ek).
    + destruct (de_content d v); cbn [obind] in H; [|discriminate H].
      exact (IH _ (fun k1 v1 Hin => Hn k1 v1 (or_intror Hin)) H).
Qed.

Lemma tagged_map_entries d ms tag acc tg es :
  ServerResponse.tagged_map d ms tag acc = Some (tg, es) ->
  forall k c, In (k, c) es -> In (k, c) acc \/ exists raw v, In (raw, v) ms /\ unescape raw = Some k.
Proof.
  revert tag acc; induction ms as [|[k0 v0] ms IH]; intros tag acc H k c Hin;
    cbn [ServerResponse.tagged_map] in H.
  - apply some_inj in H. injection H as _ <-. left. apply in_rev. exact Hin.
  - destruct (unescape k0) as [k'|] eqn:Ek; cbn [obind] in H; [|discriminate H].
    destruct (String.eqb k' "status").
    + destruct tag; [discriminate H|].
      destruct (ServerResponse.de_tag v0); cbn [obind] in H; [|discriminate H].
      destruct (IH _ _ H k c Hin) as [Ha|(raw & v & Hr & Hu)]; [left; exact Ha|].
      right. exists raw, v. split; [right; exact Hr | exact Hu].
    + destruct (de_content d v0) as [c0|]; cbn [obind] in H; [|discriminate H].
      destruct (IH _ _ H k c Hin) as [[Ha|Ha]|(raw & v & Hr & Hu)].
      * injection Ha as -> ->. right. exists k0, v0. split; [left; reflexivity | exact Ek].
      * left. exact Ha.
      * right. exists raw, v. split; [right; exact Hr | exact Hu].
Qed.

Lemma msg_field_none es :
  (forall k c, In (k, c) es -> k <> "msg") -> ServerResponse.msg_field es None = None.
Proof.
  induction es as [|[k c] es IH]; intro H; [reflexivity|].
  cbn [ServerResponse.msg_field]. destruct (String.eqb k "msg") eqn:E.
  - apply String.eqb_eq in E. exfalso. exact (H k c (or_introl eq_refl) E).
  - apply IH. intros k1 c1 Hin. exact (H k1 c1 (or_intror Hin)).
Qed.

(** ** What a [MessagePush] round trip needs *)

Lemma keys_sorted_fst {A B} (a : list (string * A)) (b : list (string * B)) :
  map fst a = map fst b -> keys_sorted a -> keys_sorted b.
Proof.
  revert b; induction a as [|[k x] a IH]; intros [|[k' y] b] E H; try discriminate E; [exact I|].
  cbn in E. injection E as <- E. destruct H as [Hf Hs]. split; [|exact (IH b E Hs)].
  rewrite Forall_forall in *. intros [k1 y1] Hin.
  assert (Hk : In k1 (map fst a)) by (rewrite E; apply (in_map fst b (k1, y1)); exact Hin).
  apply in_map_iff in Hk as [[k2 x2] [Ek Hk]]. cbn in Ek. subst k2.
  exact (Hf (k1, x2) Hk).
Qed.

Lemma Forall2_diag {A} (R : A -> A -> Prop) l : Forall2 R l l -> Forall (fun x => R x x) l.
Proof.
  induction l as [|x l IH]; intro H; [constructor|].
  inversion H as [|? ? ? ? Hx Hl]; subst. constructor; [exact Hx | exact (IH Hl)].
Qed.

Lemma value_ok_needed v :
  value_wf v -> forall d t, ser_json (ser_value v) = Some t -> de_value d t = Some v -> value_ok d v.
Proof.
  induction v as [| b | n | s | l IHl | m IHm] using Value_ind'; intros Hw d t Hs Hd;
    try exact I.
  - destruct n as [n|n|x]; cbn in Hw |- *; try exact Hw.
    cbn in Hs. rewrite Hw in Hs. injection Hs as <-. cbn [de_value] in Hd.
    destruct (parse_number (ryu_format_finite x)) as [[n|n|y]|] eqn:E; try discriminate Hd.
    + destruct (n <? 0); discriminate Hd.
    + destruct (f64_is_finite y); [|discriminate Hd].
      injection Hd as ->. split; [exact Hw | reflexivity].
  - cbn [ser_value ser_json] in Hs.
    destruct (map_opt ser_json (map ser_value l)) as [ts|] eqn:Ets; [|discriminate Hs].
    cbn in Hs. injection Hs as <-.
    destruct d as [|[|d]]; [discriminate Hd|discriminate Hd|].
    cbn [de_value] in Hd.
    destruct (map_opt (de_value (S d)) ts) as [l'|] eqn:El; [|discriminate Hd].
    cbn in Hd. injection Hd as Hl. subst l'.
    split; [lia|]. cbn [pred]. cbn in Hw.
    clear -IHl Hw Ets El. revert ts Ets El.
    induction IHl as [|x l Px _ IH]; intros ts Ets El; [exact I|].
    destruct Hw as [Hx Hl]. cbn in Ets.
    destruct (ser_json (ser_value x)) as [tx|] eqn:Etx; [|discriminate Ets].
    destruct (map_opt ser_json (map ser_value l)) as [ts'|] eqn:Ets'; [|discriminate Ets].
    cbn in Ets. injection Ets as <-. cbn in El.
    destruct (de_value (S d) tx) as [x'|] eqn:Ex; [|discriminate El].
    destruct (map_opt (de_value (S d)) ts') as [l'|] eqn:El'; [|discriminate El].
    cbn in El. injection El as <- <-.
    split; [exact (Px Hx _ _ eq_refl Ex) | exact (IH Hl ts' eq_refl El')].
  - cbn [ser_value ser_json] in Hs.
    destruct (map_opt _ (map _ m)) as [ts|] eqn:Ets; [|discriminate Hs].
    cbn in Hs. injection Hs as <-.
    destruct d as [|[|d]]; [discriminate Hd|discriminate Hd|].
    cbn [de_value] in Hd.
    destruct (map_opt _ ts) as [kvs|] eqn:Ek; [|discriminate Hd].
    cbn in Hd. injection Hd as Hm.
    destruct Hw as [Hsort Hw].
    (* the decoded entries have the keys of [m], each value decoded from its encoding *)
    assert (Hp : Forall2 (fun kx ky => fst kx = fst ky /\
                   exists tx, ser_json (ser_value (snd kx)) = Some tx /\
                              de_value (S d) tx = Some (snd ky)) m kvs).
    { clear -Ets Ek. revert ts kvs Ets Ek.
      induction m as [|[k x] m IH]; intros ts kvs Ets Ek.
      - cbn in Ets. injection Ets as <-. cbn in Ek. injection Ek as <-. constructor.
      - cbn in Ets. destruct (ser_json (ser_value x)) as [tx|] eqn:Etx; [|discriminate Ets].
        cbn in Ets. destruct (map_opt _ (map _ m)) as [ts'|] eqn:Ets'; [|discriminate Ets].
        cbn in Ets. injection Ets as <-. cbn in Ek. rewrite unescape_escape in Ek. cbn in Ek.
        destruct (de_value (S d) tx) as [y|] eqn:Ey; [|discriminate Ek].
        cbn in Ek. destruct (map_opt _ ts') as [kvs'|] eqn:Ek'; [|discriminate Ek].
        cbn in Ek. injection Ek as <-. constructor; [|exact (IH _ _ eq_refl Ek')].
        split; [reflexivity|]. exists tx. auto. }
    assert (Hf : map fst m = map fst kvs).
    { clear -Hp. induction Hp as [|[k x] [k' y] m kvs [E _] _ IH]; [reflexivity|].
      cbn in *. congruence. }
    rewrite (fold_insert_sorted kvs []) in Hm by exact (keys_sorted_fst m kvs Hf Hsort).
    cbn in Hm. subst kvs.
    split; [lia|]. split; [exact Hsort|]. cbn [pred].
    assert (Hd : Forall (fun kx => exists tx, ser_json (ser_value (snd kx)) = Some tx /\
                                      de_value (S d) tx = Some (snd kx)) m).
    { apply Forall2_diag in Hp. rewrite Forall_forall in Hp |- *.
      intros kx Hin. exact (proj2 (Hp kx Hin)). }
    clear -IHm Hw Hd. induction m as [|[k x] m IH]; [exact I|].
    inversion IHm as [|? ? Px Pm]; subst. inversion Hd as [|? ? [tx [Etx Ex]] Hm']; subst.
    destruct Hw as [Hx Hm]. cbn in *.
    split; [exact (Px Hx _ _ Etx Ex) | exact (IH Pm Hm Hm')].
Qed.

Lemma push_deserialize tv :
  ServerMessage.deserialize initial_depth (RObj [("MessagePush", RObj [("message", tv)])])
  = option_map ServerMessage.MessagePush (de_value 126 tv).
Proof. unfold ServerMessage.deserialize. cbn. destruct (de_value 126 tv); reflexivity. Qed.

Lemma push_roundtrip_needed v p :
  value_wf v -> ServerMessage.to_vec (ServerMessage.MessagePush v) = Some p ->
  ServerMessage.from_slice p = Some (ServerMessage.MessagePush v) -> value_ok 126 v.
Proof.
  intros Hw Hp Hd. destruct (ser_value_json v) as [tv [H1 [H2 _]]].
  unfold ServerMessage.to_vec, serde_json.to_vec, to_vec in Hp.
  assert (Hs : ser_json (ServerMessage.serialize (ServerMessage.MessagePush v))
                = Some (RObj [("MessagePush", RObj [("message", tv)])]))
    by (cbn [ServerMessage.serialize ser_json map_opt]; rewrite H1; cbn; reflexivity).
  rewrite Hs in Hp. apply some_inj in Hp.
  assert (Hwf : wf_raw (RObj [("MessagePush", RObj [("message", tv)])]))
    by (cbn [wf_raw all_list]; repeat split; try exact H2; intro; reflexivity).
  unfold ServerMessage.from_slice in Hd. rewrite <- Hp, (read_json_print _ Hwf) in Hd.
  cbn [obind] in Hd. rewrite push_deserialize in Hd.
  destruct (de_value 126 tv) as [v'|] eqn:E; [|discriminate Hd].
  apply some_inj in Hd. injection Hd as ->. exact (value_ok_needed v Hw 126 tv H1 E).
Qed.

(** ** Which texts [ClientMessage::from_str] accepts *)

Lemma slot_lists_cons n ns s sl ms :
  slot_lists (n :: ns) (s :: sl) ms
  = (match s with Some v => [v] | None => [] end ++ ClientEncoding.occurrences n ms)%list :: slot_lists ns sl ms.
Proof. reflexivity. Qed.

Lemma keys_ok_spec ms : keys_ok ms = true <-> (forall k v, In (k, v) ms -> unescape k <> None).
Proof.
  unfold keys_ok. rewrite forallb_forall. split.
  - intros H k v Hin E. specialize (H (k, v) Hin). cbn in H. rewrite E in H. discriminate.
  - intros H [k v] Hin. cbn. destruct (unescape k) eqn:E; [reflexivity|].
    exfalso. exact (H k v Hin E).
Qed.

Lemma occ_same k v ms f :
  unescape k = Some f -> ClientEncoding.occurrences f ((k, v) :: ms) = v :: ClientEncoding.occurrences f ms.
Proof. intro E. unfold ClientEncoding.occurrences. cbn. rewrite E, String.eqb_refl. reflexivity. Qed.

Lemma occ_other k v ms f k' :
  unescape k = Some k' -> k' <> f -> ClientEncoding.occurrences f ((k, v) :: ms) = ClientEncoding.occurrences f ms.
Proof.
  intros E Hn. unfold ClientEncoding.occurrences. cbn. rewrite E.
  destruct (String.eqb_spec k' f); [contradiction|reflexivity].
Qed.

Lemma field_index_none names k : field_index names k = None -> ~ In k names.
Proof.
  induction names as [|n ns IH]; intros H Hin; [exact Hin|].
  cbn [field_index] in H. destruct (String.eqb_spec n k); [discriminate|].
  destruct (field_index ns k); [discriminate|].
  destruct Hin as [->|Hin]; [contradiction|exact (IH eq_refl Hin)].
Qed.

Lemma slot_lists_other names slots k v ms k' :
  unescape k = Some k' -> ~ In k' names ->
  slot_lists names slots ((k, v) :: ms) = slot_lists names slots ms.
Proof.
  intros E. revert slots; induction names as [|n ns IH]; intros [|s sl] Hn; try reflexivity.
  unfold slot_lists in *. cbn [combine map fst snd].
  rewrite (occ_other k v ms n k' E) by (intro; subst; apply Hn; left; reflexivity).
  f_equal. apply IH. intro H. apply Hn. right. exact H.
Qed.

Lemma set_slot_step names slots k v ms k' i :
  NoDup names -> length slots = length names -> unescape k = Some k' ->
  field_index names k' = Some i ->
  match set_slot i v slots with
  | Some slots' => length slots' = length names /\
                   slot_lists names slots' ms = slot_lists names slots ((k, v) :: ms)
  | None => forallb (fun l => Nat.leb (length l) 1) (slot_lists names slots ((k, v) :: ms)) = false
  end.
Proof.
  intros Hnd. revert slots i; induction names as [|n ns IH]; intros [|s sl] i Hl E Hi;
    try discriminate Hl; [discriminate Hi|].
  inversion Hnd as [|? ? Hnin Hnd']; subst. cbn in Hl. injection Hl as Hl.
  rewrite !slot_lists_cons. cbn [field_index] in Hi.
  destruct (String.eqb_spec n k') as [<-|Hne].
  - injection Hi as <-. rewrite (occ_same k v ms n E).
    rewrite (slot_lists_other ns sl k v ms n E Hnin). destruct s as [w|]; cbn [set_slot].
    + cbn. reflexivity.
    + rewrite slot_lists_cons. split; [cbn; f_equal; exact Hl | reflexivity].
  - destruct (field_index ns k') as [j|] eqn:Ej; [|discriminate Hi]. injection Hi as <-.
    rewrite (occ_other k v ms n k' E) by congruence.
    specialize (IH Hnd' sl j Hl E eq_refl). cbn [set_slot].
    destruct (set_slot j v sl) as [sl'|]; cbn [option_map].
    + destruct IH as [IH1 IH2]. rewrite slot_lists_cons. cbn [length].
      split; [f_equal; exact IH1|]. f_equal. exact IH2.
    + cbn [forallb]. rewrite IH. apply andb_false_r.
Qed.

Lemma slot_lists_nil names slots :
  length slots = length names ->
  forallb (fun l => Nat.leb (length l) 1) (slot_lists names slots []) = true /\
  map (@hd_error _) (slot_lists names slots []) = slots.
Proof.
  revert slots; induction names as [|n ns IH]; intros [|s sl] Hl; try discriminate Hl;
    [split; reflexivity|].
  cbn in Hl. injection Hl as Hl. destruct (IH sl Hl) as [H1 H2].
  rewrite slot_lists_cons. cbn [forallb map]. rewrite H1, H2.
  unfold ClientEncoding.occurrences. cbn. destruct s; split; reflexivity.
Qed.

Lemma collect_eq names ms : NoDup names -> forall slots, length slots = length names ->
  collect_fields names ms slots =
  if keys_ok ms && forallb (fun l => Nat.leb (length l) 1) (slot_lists names slots ms)
  then Some (map (@hd_error _) (slot_lists names slots ms)) else None.
Proof.
  intro Hnd. induction ms as [|[k v] ms IH]; intros slots Hl.
  - destruct (slot_lists_nil names slots Hl) as [H1 H2]. cbn [collect_fields keys_ok forallb].
    change (keys_ok []) with true. rewrite H1, H2. reflexivity.
  - cbn [collect_fields]. unfold keys_ok. cbn [forallb fst]. fold (keys_ok ms).
    destruct (unescape k) as [k'|] eqn:E; cbn [obind andb]; [|reflexivity].
    destruct (field_index names k') as [i|] eqn:Ei.
    + pose proof (set_slot_step names slots k v ms k' i Hnd Hl E Ei) as Hs.
      destruct (set_slot i v slots) as [sl'|]; cbn [obind].
      * destruct Hs as [Hl' Hs]. rewrite (IH sl' Hl'), Hs. reflexivity.
      * rewrite Hs, andb_false_r. reflexivity.
    + rewrite (slot_lists_other names slots k v ms k' E (field_index_none _ _ Ei)).
      apply IH. exact Hl.
Qed.

Lemma slot_lists_repeat names ms :
  slot_lists names (repeat None (length names)) ms = map (fun f => ClientEncoding.occurrences f ms) names.
Proof. induction names as [|n ns IH]; [reflexivity|]. unfold slot_lists in *. cbn. f_equal. exact IH. Qed.

Lemma forallb_map' {A B} (f : B -> bool) (g : A -> B) l :
  forallb f (map g l) = forallb (fun x => f (g x)) l.
Proof. induction l as [|x l IH]; cbn; [reflexivity|]. rewrite IH. reflexivity. Qed.

Lemma de_struct_obj names d ms : NoDup names ->
  de_struct names (S (S d)) (RObj ms) =
  if keys_ok ms && forallb (fun f => Nat.leb (length (ClientEncoding.occurrences f ms)) 1) names
  then Some (S d, map (fun f => hd_error (ClientEncoding.occurrences f ms)) names) else None.
Proof.
  intro Hnd. cbn [de_struct]. rewrite (collect_eq names ms Hnd) by apply repeat_length.
  rewrite slot_lists_repeat, forallb_map', map_map.
  destruct (_ && _); reflexivity.
Qed.


Ltac opaque_cbn := cbn -[de_string de_u16 de_u64 de_opt_string
                          FakeKeyActionMessage.deserialize unescape ClientEncoding.occurrences keys_ok].

Ltac decoders_solve :=
  repeat match goal with |- context [obind ?e _] => destruct e eqn:?; cbn [obind] end;
  intuition congruence.

Lemma de_variant_valid m c :
  ClientMessage.de_variant (ClientMessage.variant_name m) 127 c = Some m <->
  ClientEncoding.valid_content (ClientEncoding.field_specs m) c.
Proof.
  destruct c as [| b | l | b | l | ms];
    destruct m; unfold ClientMessage.de_variant, ClientMessage.session_only;
    cbn [ClientMessage.variant_name ClientEncoding.field_specs ClientEncoding.valid_content].
  all: try (opaque_cbn; split; [discriminate | intros []]).
  all: match goal with
       | l : list jraw |- _ =>
           opaque_cbn; destruct l as [|v0 [|v1 [|v2 [|v3 l]]]]; opaque_cbn; decoders_solve
       | ms : list (string * jraw) |- _ => idtac
       end.
  all: unfold ClientEncoding.valid_object; rewrite <- keys_ok_spec;
      cbn -[de_struct de_string de_u16 de_u64 de_opt_string
            FakeKeyActionMessage.deserialize unescape ClientEncoding.occurrences keys_ok];
      rewrite de_struct_obj by (repeat constructor; cbn; intuition discriminate);
      opaque_cbn; destruct (keys_ok ms); opaque_cbn;
      [|split; [discriminate | intuition discriminate]];
      repeat match goal with |- context [ClientEncoding.occurrences ?f ?ms] =>
               destruct (ClientEncoding.occurrences f ms) as [|? [|? ?]] end;
      opaque_cbn; decoders_solve.
Qed.

Lemma from_str_valid s m : ClientMessage.from_str s = Some m <-> ClientEncoding.valid_encoding s m.
Proof.
  unfold ClientMessage.from_str, ClientEncoding.valid_encoding. split.
  - intro H. destruct (read_json s) as [j|]; cbn [obind] in H; [|discriminate H].
    destruct (client_deserialize_name _ _ _ H) as [name [d' [c [He Hv]]]].
    pose proof (client_de_variant_name _ _ _ _ Hv) as Hn. subst name.
    destruct j as [| | | | |[|[k c0] [|? ?]]]; cbn in He; try discriminate He.
    + destruct (unescape body); discriminate He.
    + destruct (unescape k) as [v|] eqn:Ek; cbn in He; [|discriminate He].
      injection He as Hv' <- <-. exists k, c0. split; [reflexivity|].
      split; [rewrite Ek, Hv'; reflexivity|]. apply de_variant_valid. exact Hv.
  - intros (k & c & Hr & Hk & Hc). rewrite Hr. cbn [obind].
    unfold ClientMessage.deserialize, enum_access, initial_depth. rewrite Hk. cbn [option_map].
    apply de_variant_valid. exact Hc.
Qed.

(** ** Integer fields *)

Lemma de_u64_lexeme t n :
  de_u64 t = Some n <->
  exists l, t = RNum l /\ l <> EmptyString /\ all_digits l = true /\
    digits_value l = n /\ n < u64_limit.
Proof.
  split.
  - intro H. destruct t as [| |l| | |]; try discriminate H. exists l. split; [reflexivity|].
    unfold de_u64, parse_number in H. cbv zeta in H.
    destruct l as [|c ds]; [discriminate H|]. split; [discriminate|].
    destruct (Ascii.eqb c "-" && all_digits ds) eqn:Em.
    * destruct ((1 <=? digits_value ds) && (digits_value ds <=? i64_limit)) eqn:B.
      -- apply andb_true_iff in B. destruct B as [B _]. apply Z.leb_le in B.
         destruct (0 <=? - digits_value ds) eqn:C; [apply Z.leb_le in C; lia | discriminate H].
      -- destruct (f64_from_lexeme _); discriminate H.
    * destruct (all_digits (String c ds)) eqn:Ea.
      -- destruct (digits_value (String c ds) <? u64_limit) eqn:Lt.
         ++ injection H as <-. apply Z.ltb_lt in Lt. auto.
         ++ destruct (f64_from_lexeme _); discriminate H.
      -- destruct (f64_from_lexeme _); discriminate H.
  - intros (l & -> & Hne & Ha & <- & Hlt). unfold de_u64, parse_number. cbv zeta.
    destruct l as [|c ds]; [congruence|].
    assert (Hc : is_digit c = true) by (cbn in Ha; apply andb_true_iff in Ha; tauto).
    rewrite (digit_not_minus c Hc). cbn [andb]. rewrite Ha.
    rewrite (proj2 (Z.ltb_lt _ _) Hlt). reflexivity.
Qed.

Lemma de_u16_u64 t n : de_u16 t = Some n <-> de_u64 t = Some n /\ n < 65536.
Proof.
  unfold de_u16, de_u64.
  destruct t as [| |l| | |]; try (split; [discriminate | intros [H _]; discriminate H]).
  destruct (parse_number l) as [[m|m|x]|];
    try (split; [discriminate | intros [H _]; discriminate H]).
  - destruct (Z.ltb_spec m 65536); split.
    * intro E. injection E as <-. auto.
    * intros [E _]. exact E.
    * discriminate.
    * intros [E Hl]. injection E as <-. exfalso; lia.
  - destruct (Z.leb_spec 0 m), (Z.ltb_spec m 65536); cbn; split.
    * intro E. injection E as <-. auto.
    * intros [E _]. exact E.
    * discriminate.
    * intros [E Hl]. injection E as <-. exfalso; lia.
    * discriminate.
    * intros [E _]. discriminate E.
    * discriminate.
    * intros [E _]. discriminate E.
Qed.

Lemma de_u16_lexeme t n :
  de_u16 t = Some n <->
  exists l, t = RNum l /\ l <> EmptyString /\ all_digits l = true /\
    digits_value l = n /\ n < 65536.
Proof.
  rewrite de_u16_u64, de_u64_lexeme. split.
  - intros [(l & E & Hne & Ha & Hv & _) Hl]. exists l. repeat split; assumption.
  - intros (l & E & Hne & Ha & Hv & Hl). split; [|exact Hl].
    exists l. repeat split; try assumption. unfold u64_limit. lia.
Qed.

Lemma de_u16_none v :
  ~ (exists l, v = RNum l /\ l <> EmptyString /\ all_digits l = true /\ digits_value l < 65536) ->
  de_u16 v = None.
Proof.
  intro H. destruct (de_u16 v) as [n|] eqn:E; [|reflexivity]. exfalso. apply H.
  apply de_u16_lexeme in E. destruct E as (l & E & Hne & Ha & Hv & Hl). exists l.
  subst n. repeat split; assumption.
Qed.

Lemma client_from_str_content s k c name :
  read_json s = Some (RObj [(k, c)]) -> unescape k = Some name ->
  ClientMessage.from_str s = ClientMessage.de_variant name 127 c.
Proof.
  intros Hs Hk. unfold ClientMessage.from_str. rewrite Hs. cbn [obind].
  unfold ClientMessage.deserialize, enum_access, initial_depth. rewrite Hk. reflexivity.
Qed.


End Lemmas.

(** * Claims *)

Section Claims.
Context {FF : F64Text}.

(** C2: [ServerResponse::Ok.as_bytes()] is [{"status":"Ok"}] followed by a
    newline and [ServerResponse::Error{msg:"test"}.as_bytes()] is
    [{"status":"Error","msg":"test"}] followed by a newline. *)
Theorem server_response_as_bytes_literal :
  ServerResponse.as_bytes ServerResponse.Ok = Some (tick "{`status`:`Ok`}" ++ nl) /\
  ServerResponse.as_bytes (ServerResponse.Error "test")
    = Some (tick "{`status`:`Error`,`msg`:`test`}" ++ nl).
Proof. split; reflexivity. Qed.


(** C1 (corrected): encoding then decoding gives the value back for every
    [ClientMessage] (its [u16] and [usize] fields in range, as Rust's types
    keep them) and every [ServerResponse]; for a [ServerMessage] exactly
    within [in_range]: it is enough, and for a [MessagePush] of any value a
    Rust program can build it is also needed, that the value is nested at
    most 125 arrays or objects deep and that each float in it is read back
    by serde_json's float parser from [ryu]'s text as the same float. *)
Theorem roundtrip :
  (forall m, ClientMessage.in_range m ->
     exists p, ClientMessage.to_string m = Some p /\ ClientMessage.from_str p = Some m) /\
  (forall m, ServerMessage.in_range m ->
     exists p, ServerMessage.to_vec m = Some p /\ ServerMessage.from_slice p = Some m) /\
  (forall r, exists p, ServerResponse.to_vec r = Some p /\ ServerResponse.from_slice p = Some r) /\
  (forall v p, value_wf v ->
     ServerMessage.to_vec (ServerMessage.MessagePush v) = Some p ->
     ServerMessage.from_slice p = Some (ServerMessage.MessagePush v) ->
     ServerMessage.in_range (ServerMessage.MessagePush v)).
Proof.
  split; [|split; [|split]].
  - intros m Hr. destruct (client_text m) as [p [H1 [_ H3]]]. exists p. auto.
  - intros m Hr. destruct (server_text m) as [p [H1 [_ [_ H3]]]]. exists p. auto.
  - intro r. destruct (response_text r) as [p [H1 [_ [_ H3]]]]. exists p. auto.
  - intros v p Hw Hp Hd. exact (push_roundtrip_needed v p Hw Hp Hd).
Qed.

(** C3: a [ClientMessage] other than [Authenticate] whose [session_id] is
    [None] is written without a [session_id] key; [Reload] with no session
    is [{"Reload":{}}], which reads back as [Reload] with no session. *)
Theorem session_id_omitted :
  (forall m, ClientMessage.session_of m = None ->
     ClientMessage.variant_name m <> "Authenticate" ->
     exists fs, ser_json (ClientMessage.serialize m)
                  = Some (RObj [(escape (ClientMessage.variant_name m), RObj fs)]) /\
       ~ In "session_id" (map fst fs)) /\
  ClientMessage.to_string (ClientMessage.Reload None) = Some (tick "{`Reload`:{}}") /\
  ClientMessage.from_str (tick "{`Reload`:{}}") = Some (ClientMessage.Reload None).
Proof.
  split; [|split; reflexivity].
  intros m Hs Ha. destruct m; cbn in Hs, Ha; [congruence| ..]; subst;
    (eexists; split; [reflexivity|]); cbn; intuition discriminate.
Qed.

(** C4 (corrected): [AuthResult{success:false, session_id:None,
    expires_in_seconds:None}] round-trips, but its wire form carries both
    optional fields as [null]; the form without them reads back the same. *)
Theorem auth_result_roundtrip :
  ServerMessage.to_vec (ServerMessage.AuthResult false None None)
    = Some (tick "{`AuthResult`:{`success`:false,`session_id`:null,`expires_in_seconds`:null}}") /\
  ServerMessage.from_slice
    (tick "{`AuthResult`:{`success`:false,`session_id`:null,`expires_in_seconds`:null}}")
    = Some (ServerMessage.AuthResult false None None) /\
  ServerMessage.from_slice (tick "{`AuthResult`:{`success`:false}}")
    = Some (ServerMessage.AuthResult false None None).
Proof. repeat split; reflexivity. Qed.

(** C5: a discriminator that names no declared variant is an error, for the
    externally tagged [ClientMessage] and [ServerMessage] and for the
    [status] tag of [ServerResponse] (map and sequence forms); [{}] is an
    error for all three. *)
Theorem unknown_discriminator :
  (forall d t name c, enum_access d t = Some (name, c) ->
     ~ In name ClientMessage.variant_names -> ClientMessage.deserialize d t = None) /\
  (forall d t name c, enum_access d t = Some (name, c) ->
     ~ In name ServerMessage.variant_names -> ServerMessage.deserialize d t = None) /\
  (forall d ms k v s, In (k, v) ms -> unescape k = Some "status" -> de_string v = Some s ->
     ~ In s ServerResponse.variant_names -> ServerResponse.deserialize d (RObj ms) = None) /\
  (forall d v rest s, de_string v = Some s -> ~ In s ServerResponse.variant_names ->
     ServerResponse.deserialize d (RArr (v :: rest)) = None) /\
  ClientMessage.from_str "{}" = None /\ ServerMessage.from_slice "{}" = None /\
  ServerResponse.from_slice "{}" = None.
Proof.
  split; [|split; [|split; [|split]]].
  - intros d t name c He Hn. unfold ClientMessage.deserialize. rewrite He.
    destruct c as [[d' x]|]; [|reflexivity]. apply client_de_variant_unknown. exact Hn.
  - intros d t name c He Hn. unfold ServerMessage.deserialize. rewrite He.
    destruct (server_de_variant_unknown name (match c with Some (d', _) => d' | None => O end)
                (match c with Some (_, x) => x | None => RNull end) Hn) as [H1 H2].
    destruct c as [[d' x]|]; [exact H1|exact H2].
  - intros d ms k v s Hin Hk Hv Hn.
    destruct d as [|[|d']]; [reflexivity|reflexivity|]. cbn [ServerResponse.deserialize].
    rewrite (tagged_map_bad_tag _ _ _ _ _ _ Hin Hk (de_tag_unknown _ _ Hv Hn)). reflexivity.
  - intros d v rest s Hv Hn.
    destruct d as [|[|d']]; [reflexivity|reflexivity|]. cbn [ServerResponse.deserialize].
    rewrite (de_tag_unknown _ _ Hv Hn). reflexivity.
  - repeat split; reflexivity.
Qed.

(** C6: [as_bytes] never reaches its [expect]: serializing any
    [ServerMessage] (any [Value] in [MessagePush]) or [ServerResponse]
    succeeds. *)
Theorem as_bytes_total :
  (forall m, ServerMessage.as_bytes m <> None) /\ (forall r, ServerResponse.as_bytes r <> None).
Proof.
  split.
  - intro m. destruct (server_text m) as [p [_ [H _]]]. rewrite H. discriminate.
  - intro r. destruct (response_text r) as [p [_ [H _]]]. rewrite H. discriminate.
Qed.

(** C7 (corrected): every [as_bytes] is a payload without a newline byte
    followed by one newline; two such frames written one after the other
    always split into the two payloads, and each payload decodes back to its
    value when that value is within [in_range] (for a [ServerMessage] this
    is exactly the condition of [roundtrip]). *)
Theorem framing :
  (forall x, exists p, out_bytes x = Some (p ++ nl) /\ has_newline p = false) /\
  (forall x1 x2 b1 b2, out_bytes x1 = Some b1 -> out_bytes x2 = Some b2 ->
     exists p1 p2, b1 = p1 ++ nl /\ b2 = p2 ++ nl /\ split_frames (b1 ++ b2) = [p1; p2] /\
       (out_in_range x1 -> out_decodes x1 p1) /\ (out_in_range x2 -> out_decodes x2 p2)).
Proof.
  assert (Hx : forall x, exists p, out_bytes x = Some (p ++ nl) /\ has_newline p = false /\
                 (out_in_range x -> out_decodes x p)).
  { intros [m|r].
    - destruct (server_text m) as [p [_ [H2 [H3 H4]]]]. exists p. auto.
    - destruct (response_text r) as [p [_ [H2 [H3 H4]]]]. exists p. auto. }
  split.
  - intro x. destruct (Hx x) as [p [H1 [H2 _]]]. exists p. auto.
  - intros x1 x2 b1 b2 B1 B2.
    destruct (Hx x1) as [p1 [H1 [N1 D1]]]. destruct (Hx x2) as [p2 [H2 [N2 D2]]].
    rewrite B1 in H1. rewrite B2 in H2. injection H1 as ->. injection H2 as ->.
    exists p1, p2. split; [reflexivity|]. split; [reflexivity|].
    split; [apply split_frames_two; assumption|]. auto.
Qed.

(** C8: [ClientMessage::from_str] returns [Ok m] exactly when the text is
    a valid JSON encoding of [m]'s variant with every required field present
    ([ClientEncoding.valid_encoding]: one key naming the variant, each field
    given once with a value its type's decoder reads as [m]'s, or all fields
    in order in an array), and an error for every other text; in particular
    an object-form payload missing a required field of its variant, or an
    array-form payload of the wrong length, is an error, and every message's
    own encoding is accepted. *)
Theorem from_str_result :
  (forall s m, ClientMessage.from_str s = Some m <-> ClientEncoding.valid_encoding s m) /\
  (forall s, ClientMessage.from_str s = None <-> forall m, ~ ClientEncoding.valid_encoding s m) /\
  (forall s k ms name f, read_json s = Some (RObj [(k, RObj ms)]) -> unescape k = Some name ->
     In f (ClientMessage.required_fields name) ->
     (forall k1 v1, In (k1, v1) ms -> unescape k1 <> Some f) ->
     ClientMessage.from_str s = None) /\
  (forall s k l name, read_json s = Some (RObj [(k, RArr l)]) -> unescape k = Some name ->
     length l <> length (ClientMessage.fields_of name) -> ClientMessage.from_str s = None) /\
  (forall m, ClientMessage.in_range m ->
     exists s, ClientMessage.to_string m = Some s /\ ClientMessage.from_str s = Some m).
Proof.
  split; [exact from_str_valid|]. split; [|split; [|split]].
  - intro s. split.
    + intros H m Hv. apply from_str_valid in Hv. congruence.
    + intro H. destruct (ClientMessage.from_str s) as [m|] eqn:E; [|reflexivity].
      exfalso. apply (H m). apply from_str_valid. exact E.
  - intros s k ms name f Hs Hk Hf Hms. unfold ClientMessage.from_str. rewrite Hs. cbn [obind].
    unfold ClientMessage.deserialize, enum_access, initial_depth. rewrite Hk. cbn [option_map].
    destruct (in_dec string_dec name ClientMessage.variant_names) as [Hin|Hn];
      [|apply client_de_variant_unknown; exact Hn].
    cbn in Hin. decompose [or] Hin; try contradiction; subst; cbn in Hf; decompose [or] Hf;
      try contradiction; subst;
      unfold ClientMessage.de_variant; cbn -[de_struct];
      destruct (de_struct _ _ _) as [[d' sl]|] eqn:Ed; try reflexivity;
      pose proof (de_struct_missing _ _ _ _ _ _ Hms Ed _ eq_refl) as Hn;
      destruct sl as [|s0 [|s1 [|s2 [|s3 sl]]]]; cbn in Hn; try discriminate;
      try (injection Hn as ->); cbn;
      repeat (match goal with |- context [obind ?o _] => destruct o end; cbn);
      reflexivity.
  - intros s k l name Hs Hk Hl. unfold ClientMessage.from_str. rewrite Hs. cbn [obind].
    unfold ClientMessage.deserialize, enum_access, initial_depth. rewrite Hk. cbn [option_map].
    destruct (in_dec string_dec name ClientMessage.variant_names) as [Hin|Hn];
      [|apply client_de_variant_unknown; exact Hn].
    cbn in Hin. decompose [or] Hin; try contradiction; subst;
      unfold ClientMessage.de_variant, ClientMessage.session_only; cbn -[de_struct];
      rewrite de_struct_arr_len by exact Hl; reflexivity.
  - intros m Hr. destruct (client_text m) as [p [H1 [_ H3]]]. exists p. auto.
Qed.

(** C9: a [u16] field such as [x] or [y] of [SetMouse] is read exactly from
    a JSON number written as decimal digits (no sign, not even [-0], no
    fraction, no exponent) of value at most 65535, and that value is the
    field's; a decoded [SetMouse] has [x] and [y] in [0..65535]; a
    [SetMouse] payload, in map or array form, whose [x] or [y] value is not
    such a number is an error (for instance [65536], [70000], [-1], [-0],
    [1.0], [1.5], [1e2]). *)
Theorem set_mouse_u16 :
  (forall t n, de_u16 t = Some n <->
     exists l, t = RNum l /\ l <> EmptyString /\ all_digits l = true /\
       digits_value l = n /\ n < 65536) /\
  (forall s x y sid, ClientMessage.from_str s = Some (ClientMessage.SetMouse x y sid) ->
     0 <= x < 65536 /\ 0 <= y < 65536) /\
  (forall s k ms f k1 v, read_json s = Some (RObj [(k, RObj ms)]) ->
     unescape k = Some "SetMouse" -> In f ["x"; "y"] -> In (k1, v) ms -> unescape k1 = Some f ->
     ~ (exists l, v = RNum l /\ l <> EmptyString /\ all_digits l = true /\
          digits_value l < 65536) ->
     ClientMessage.from_str s = None) /\
  (forall s k vx vy vs, read_json s = Some (RObj [(k, RArr [vx; vy; vs])]) ->
     unescape k = Some "SetMouse" ->
     ~ (exists l, vx = RNum l /\ l <> EmptyString /\ all_digits l = true /\
          digits_value l < 65536) \/
     ~ (exists l, vy = RNum l /\ l <> EmptyString /\ all_digits l = true /\
          digits_value l < 65536) ->
     ClientMessage.from_str s = None) /\
  de_u16 (RNum "65535") = Some 65535 /\ de_u16 (RNum "65536") = None /\
  de_u16 (RNum "70000") = None /\ de_u16 (RNum "-1") = None /\ de_u16 (RNum "-0") = None /\
  de_u16 (RNum "1.0") = None /\ de_u16 (RNum "1.5") = None /\ de_u16 (RNum "1e2") = None.
Proof.
  split; [exact de_u16_lexeme|]. split; [|split; [|split]].
  - intros s x y sid H. unfold ClientMessage.from_str in H.
    destruct (read_json s) as [j|]; cbn in H; [|discriminate].
    destruct (client_deserialize_name _ _ _ H) as [name [d' [c [_ Hv]]]].
    exact (client_de_variant_set_mouse _ _ _ _ _ _ Hv).
  - intros s k ms f k1 v Hs Hk Hf Hin Hk1 Hn.
    rewrite (client_from_str_content _ _ _ _ Hs Hk).
    pose proof (de_u16_none v Hn) as Hv.
    unfold ClientMessage.de_variant; cbn -[de_struct de_u16].
    destruct (de_struct _ _ _) as [[d' sl]|] eqn:Ed; [|reflexivity].
    destruct Hf as [<-|[<-|[]]];
      pose proof (de_struct_found _ _ _ _ _ _ _ _ _ Ed Hin Hk1 eq_refl) as Hn';
      destruct sl as [|s0 [|s1 [|s2 [|s3 sl]]]]; cbn in Hn'; try discriminate;
      try (injection Hn' as ->); cbn -[de_u16]; try rewrite Hv; cbn -[de_u16];
      repeat (match goal with |- context [obind ?o _] => destruct o end; cbn -[de_u16]);
      reflexivity.
  - intros s k vx vy vs Hs Hk Hn.
    rewrite (client_from_str_content _ _ _ _ Hs Hk). cbn -[de_u16].
    destruct Hn as [Hn|Hn]; rewrite (de_u16_none _ Hn); cbn -[de_u16]; [reflexivity|].
    destruct (de_u16 vx); reflexivity.
  - split; [reflexivity|]. split; [reflexivity|].
    repeat split; cbn; destruct (f64_from_lexeme _); reflexivity.
Qed.


End Claims.

(** * Further properties of the code *)

Section Extras.
Context {FF : F64Text}.

(** X1: after the payload of a message (a [ClientMessage] or [ServerMessage]
    in range, any [ServerResponse]), [from_str] and [from_slice] still
    decode it when only whitespace follows, and refuse the text when
    anything else follows. *)
Theorem trailing_text :
  (forall m, ClientMessage.in_range m -> exists p, ClientMessage.to_string m = Some p /\
     forall rest, ClientMessage.from_str (p ++ rest)
       = match skip_ws rest with EmptyString => Some m | _ => None end) /\
  (forall m, ServerMessage.in_range m -> exists p, ServerMessage.to_vec m = Some p /\
     forall rest, ServerMessage.from_slice (p ++ rest)
       = match skip_ws rest with EmptyString => Some m | _ => None end) /\
  (forall r, exists p, ServerResponse.to_vec r = Some p /\
     forall rest, ServerResponse.from_slice (p ++ rest)
       = match skip_ws rest with EmptyString => Some r | _ => None end).
Proof.
  split; [|split].
  - intros m Hr. destruct (client_text_rest m) as [p [H1 [_ H3]]].
    exists p. split; [exact H1 | exact (H3 Hr)].
  - intros m Hr. destruct (server_text_rest m) as [p [H1 [_ H3]]].
    exists p. split; [exact H1 | exact (H3 Hr)].
  - intro r. destruct (response_text_rest r) as [p [H1 [_ H3]]].
    exists p. split; [exact H1 | exact H3].
Qed.

(** X2: a whole [as_bytes] frame, its trailing newline included, is read
    back by [from_slice]: the newline counts as trailing whitespace. *)
Theorem frame_decodes :
  (forall m b, ServerMessage.in_range m -> ServerMessage.as_bytes m = Some b ->
     ServerMessage.from_slice b = Some m) /\
  (forall r b, ServerResponse.as_bytes r = Some b -> ServerResponse.from_slice b = Some r).
Proof.
  split.
  - intros m b Hr Hb. destruct (server_text_rest m) as [p [_ [H2 H3]]].
    rewrite H2 in Hb. injection Hb as <-. rewrite (H3 Hr nl). reflexivity.
  - intros r b Hb. destruct (response_text_rest r) as [p [_ [H2 H3]]].
    rewrite H2 in Hb. injection Hb as <-. rewrite (H3 nl). reflexivity.
Qed.

(** X3: [serde_json::to_string] never fails on a [ClientMessage], and the
    text it gives holds no newline byte, so it fits on one line. *)
Theorem client_to_string_line :
  forall m, exists p, ClientMessage.to_string m = Some p /\ has_newline p = false.
Proof.
  intro m. destruct (client_text m) as [p [H1 [H2 _]]]. exists p. split; assumption.
Qed.

(** X4: two messages with the same encoding are equal: [to_string] on
    [ClientMessage]s in range, [as_bytes] on [ServerMessage]s in range and
    on all [ServerResponse]s. *)
Theorem encodings_injective :
  (forall m1 m2 p, ClientMessage.in_range m1 -> ClientMessage.in_range m2 ->
     ClientMessage.to_string m1 = Some p -> ClientMessage.to_string m2 = Some p -> m1 = m2) /\
  (forall m1 m2 b, ServerMessage.in_range m1 -> ServerMessage.in_range m2 ->
     ServerMessage.as_bytes m1 = Some b -> ServerMessage.as_bytes m2 = Some b -> m1 = m2) /\
  (forall r1 r2 b, ServerResponse.as_bytes r1 = Some b -> ServerResponse.as_bytes r2 = Some b ->
     r1 = r2).
Proof.
  split; [|split].
  - intros m1 m2 p R1 R2 E1 E2.
    destruct (client_text m1) as [p1 [F1 [_ D1]]]. destruct (client_text m2) as [p2 [F2 [_ D2]]].
    rewrite E1 in F1. rewrite E2 in F2. injection F1 as <-. injection F2 as <-.
    specialize (D1 R1). specialize (D2 R2). congruence.
  - intros m1 m2 b R1 R2 E1 E2.
    destruct (server_text_rest m1) as [p1 [_ [F1 D1]]].
    destruct (server_text_rest m2) as [p2 [_ [F2 D2]]].
    rewrite E1 in F1. rewrite E2 in F2. injection F1 as ->. injection F2 as F2.
    specialize (D1 R1 nl). specialize (D2 R2 nl). rewrite <- F2 in D2.
    assert (Hn : skip_ws nl = EmptyString) by reflexivity. rewrite Hn in D1, D2. congruence.
  - intros r1 r2 b E1 E2.
    destruct (response_text_rest r1) as [p1 [_ [F1 D1]]].
    destruct (response_text_rest r2) as [p2 [_ [F2 D2]]].
    rewrite E1 in F1. rewrite E2 in F2. injection F1 as ->. injection F2 as F2.
    specialize (D1 nl). specialize (D2 nl). rewrite <- F2 in D2.
    assert (Hn : skip_ws nl = EmptyString) by reflexivity. rewrite Hn in D1, D2. congruence.
Qed.

(** X5: a [FakeKeyActionMessage] is written as the bare string of its
    variant name; it is read from that string at any depth, and from an
    object with that name as single key when the depth allows one more
    level, only if the key's value is [null]. *)
Theorem fake_key_action_forms : forall a d,
  ser_json (FakeKeyActionMessage.serialize a) = Some (RStr (FakeKeyActionMessage.variant_name a)) /\
  (forall b, FakeKeyActionMessage.deserialize d (RStr b) = Some a <->
             unescape b = Some (FakeKeyActionMessage.variant_name a)) /\
  ((2 <= d)%nat -> forall k v, unescape k = Some (FakeKeyActionMessage.variant_name a) ->
     (FakeKeyActionMessage.deserialize d (RObj [(k, v)]) = Some a <-> v = RNull)).
Proof.
  intros a d. split; [destruct a; reflexivity|]. split.
  - intro b. unfold FakeKeyActionMessage.deserialize, enum_access.
    destruct (unescape b) as [s|]; cbn.
    + rewrite fake_key_of_name.
      split; [intros ->; reflexivity | intro H; injection H as ->; reflexivity].
    + split; discriminate.
  - intros Hd k v Hk. destruct d as [|[|d0]]; try lia.
    unfold FakeKeyActionMessage.deserialize, enum_access. rewrite Hk. cbn [option_map].
    rewrite (proj2 (fake_key_of_name _ a) eq_refl). cbn [obind].
    destruct v; cbn; split; intro H; try discriminate H; reflexivity.
Qed.

(** X6: a bare JSON string never decodes as a [ClientMessage]; it decodes as
    a [ServerMessage] exactly when it names one of the unit variants
    [AuthRequired] and [SessionExpired]; these two are also read from an
    object with their name as single key whose value is [null], and from no
    other value under that key. *)
Theorem unit_variant_forms :
  (forall d b, ClientMessage.deserialize d (RStr b) = None) /\
  (forall d b m, ServerMessage.deserialize d (RStr b) = Some m <->
     unescape b = Some (ServerMessage.variant_name m) /\
     (m = ServerMessage.AuthRequired \/ m = ServerMessage.SessionExpired)) /\
  (forall d k v m, (2 <= d)%nat ->
     (m = ServerMessage.AuthRequired \/ m = ServerMessage.SessionExpired) ->
     unescape k = Some (ServerMessage.variant_name m) ->
     (ServerMessage.deserialize d (RObj [(k, v)]) = Some m <-> v = RNull)).
Proof.
  split; [|split].
  - intros d b. unfold ClientMessage.deserialize, enum_access.
    destruct (unescape b); reflexivity.
  - intros d b m. unfold ServerMessage.deserialize, enum_access.
    destruct (unescape b) as [s|]; cbn.
    + unfold ServerMessage.de_unit_variant. split.
      * intro H. destruct (String.eqb s "AuthRequired") eqn:E1;
          [apply String.eqb_eq in E1; subst s; injection H as <-; auto|].
        destruct (String.eqb s "SessionExpired") eqn:E2;
          [apply String.eqb_eq in E2; subst s; injection H as <-; auto | discriminate H].
      * intros [H [-> | ->]]; injection H as ->; reflexivity.
    + split; [discriminate | intros [H _]; discriminate H].
  - intros d k v m Hd Hm Hk. destruct d as [|[|d0]]; try lia.
    unfold ServerMessage.deserialize, enum_access. rewrite Hk. cbn [option_map].
    destruct Hm as [-> | ->]; cbn;
      destruct v; cbn; split; intro H; try discriminate H; reflexivity.
Qed.

(** X7: a payload object of a [ClientMessage] or [ServerMessage] variant in
    which two keys name the same field of that variant is an error
    ([duplicate_field]), wherever the two entries are. *)
Theorem duplicate_field :
  (forall s k name ms1 k1 v1 ms2 k2 v2 ms3 f,
     read_json s = Some (RObj [(k, RObj (app ms1 ((k1, v1) :: app ms2 ((k2, v2) :: ms3))))]) ->
     unescape k = Some name -> In f (ClientMessage.fields_of name) ->
     unescape k1 = Some f -> unescape k2 = Some f -> ClientMessage.from_str s = None) /\
  (forall s k name ms1 k1 v1 ms2 k2 v2 ms3 f,
     read_json s = Some (RObj [(k, RObj (app ms1 ((k1, v1) :: app ms2 ((k2, v2) :: ms3))))]) ->
     unescape k = Some name -> In f (ServerMessage.fields_of name) ->
     unescape k1 = Some f -> unescape k2 = Some f -> ServerMessage.from_slice s = None).
Proof.
  split.
  - intros s k name ms1 k1 v1 ms2 k2 v2 ms3 f Hs Hk Hf H1 H2.
    unfold ClientMessage.from_str. rewrite Hs. cbn [obind].
    unfold ClientMessage.deserialize, enum_access, initial_depth. rewrite Hk. cbn [option_map].
    exact (client_de_variant_dup _ _ _ _ _ _ _ _ _ _ Hf H1 H2).
  - intros s k name ms1 k1 v1 ms2 k2 v2 ms3 f Hs Hk Hf H1 H2.
    unfold ServerMessage.from_slice. rewrite Hs. cbn [obind].
    unfold ServerMessage.deserialize, enum_access, initial_depth. rewrite Hk. cbn [option_map].
    exact (server_de_variant_dup _ _ _ _ _ _ _ _ _ _ Hf H1 H2).
Qed.

(** X8: a [ServerResponse] payload object with two [status] keys is an
    error, whatever their values and wherever they are. *)
Theorem duplicate_status :
  forall s ms1 k1 v1 rest k2 v2,
    read_json s = Some (RObj (app ms1 ((k1, v1) :: rest))) ->
    unescape k1 = Some "status" -> unescape k2 = Some "status" -> In (k2, v2) rest ->
    ServerResponse.from_slice s = None.
Proof.
  intros s ms1 k1 v1 rest k2 v2 Hs H1 H2 Hin.
  unfold ServerResponse.from_slice. rewrite Hs. cbn [obind].
  unfold ServerResponse.deserialize, initial_depth.
  rewrite (tagged_map_dup _ _ _ _ _ _ _ _ _ H1 H2 Hin). reflexivity.
Qed.

(** X9: a [u64] (or [usize]) field is read only from a JSON number written
    as a non-empty string of decimal digits whose value is below 2^64, and
    its value is that number: no sign (not even [-0]), fraction or exponent.
    A [u16] field is read exactly when the [u64] reading succeeds with a
    value below 65536. *)
Theorem integer_fields :
  (forall t n, de_u64 t = Some n <->
     exists l, t = RNum l /\ l <> EmptyString /\ all_digits l = true /\
       digits_value l = n /\ n < u64_limit) /\
  (forall t n, de_u16 t = Some n <-> de_u64 t = Some n /\ n < 65536).
Proof. split; intros t n; [apply de_u64_lexeme | apply de_u16_u64]. Qed.

(** X10: a [ServerMessage] payload whose variant object has no entry for a
    required (non-[Option]) field of its variant is an error
    ([missing_field]). *)
Theorem server_missing_field :
  forall s k ms name f, read_json s = Some (RObj [(k, RObj ms)]) -> unescape k = Some name ->
    In f (ServerMessage.required_fields name) ->
    (forall k1 v1, In (k1, v1) ms -> unescape k1 <> Some f) ->
    ServerMessage.from_slice s = None.
Proof.
  intros s k ms name f Hs Hk Hf Hms. unfold ServerMessage.from_slice. rewrite Hs. cbn [obind].
  unfold ServerMessage.deserialize, enum_access, initial_depth. rewrite Hk. cbn [option_map].
  destruct (in_dec string_dec name ServerMessage.variant_names) as [Hin|Hn];
    [|exact (proj1 (server_de_variant_unknown _ _ _ Hn))].
  cbn in Hin. decompose [or] Hin; try contradiction; subst; cbn in Hf; decompose [or] Hf;
    try contradiction; subst;
    unfold ServerMessage.de_variant, ServerMessage.one_string; cbn -[de_struct];
    destruct (de_struct _ _ _) as [[d' sl]|] eqn:Ed; try reflexivity;
    pose proof (de_struct_missing _ _ _ _ _ _ Hms Ed _ eq_refl) as Hn;
    destruct sl as [|s0 [|s1 [|s2 [|s3 sl]]]]; cbn in Hn; try discriminate;
    try (injection Hn as ->); cbn;
    repeat (match goal with |- context [obind ?o _] => destruct o end; cbn);
    reflexivity.
Qed.

(** X11: a [ServerResponse] is also read when [msg] comes before [status],
    and from the array form [[tag, fields...]]; [Ok] ignores a [msg] entry
    in the object form but refuses an extra element in the array form. *)
Theorem response_alternative_forms : forall d m, (2 <= d)%nat ->
  ServerResponse.deserialize d (RObj [("msg", RStr (escape m)); ("status", RStr "Error")])
    = Some (ServerResponse.Error m) /\
  ServerResponse.deserialize d (RObj [("status", RStr "Ok"); ("msg", RStr (escape m))])
    = Some ServerResponse.Ok /\
  ServerResponse.deserialize d (RArr [RStr "Error"; RStr (escape m)])
    = Some (ServerResponse.Error m) /\
  ServerResponse.deserialize d (RArr [RStr "Ok"]) = Some ServerResponse.Ok /\
  ServerResponse.deserialize d (RArr [RStr "Ok"; RStr (escape m)]) = None.
Proof.
  intros d m Hd. destruct d as [|[|d0]]; try lia.
  unfold ServerResponse.deserialize. cbn. rewrite !unescape_escape. cbn.
  repeat split.
Qed.

(** X12: the content of a struct variant of [ClientMessage] or
    [ServerMessage] may be given as an array of the field values in
    declaration order; it decodes as the object mapping each field name to
    its value. *)
Theorem array_form_fields :
  (forall name d l, length l = length (ClientMessage.fields_of name) ->
     ClientMessage.de_variant name d (RArr l)
     = ClientMessage.de_variant name d (RObj (combine (ClientMessage.fields_of name) l))) /\
  (forall name d l, length l = length (ServerMessage.fields_of name) ->
     ServerMessage.de_variant name d (RArr l)
     = ServerMessage.de_variant name d (RObj (combine (ServerMessage.fields_of name) l))).
Proof.
  split.
  - intros name d l Hl.
    destruct (in_dec string_dec name ClientMessage.variant_names) as [Hn|Hn];
      [|rewrite !client_de_variant_unknown by exact Hn; reflexivity].
    cbn in Hn. decompose [or] Hn; try contradiction; subst; cbn in Hl;
      destruct l as [|a [|b [|c [|e l]]]]; cbn in Hl; try discriminate;
      destruct d as [|[|d0]]; reflexivity.
  - intros name d l Hl.
    destruct (in_dec string_dec name ServerMessage.variant_names) as [Hn|Hn];
      [|rewrite !(proj1 (server_de_variant_unknown _ _ _ Hn)); reflexivity].
    cbn in Hn. decompose [or] Hn; try contradiction; subst; cbn in Hl;
      destruct l as [|a [|b [|c [|e l]]]]; cbn in Hl; try discriminate;
      destruct d as [|[|d0]]; reflexivity.
Qed.

(** X13: every [serde_json::Value] that [de_value] gives back, and so the
    value of every decoded [MessagePush], has the keys of each of its
    objects, at every depth, in strictly increasing order (BTreeMap order),
    whatever the order and repetitions of the keys in the input. *)
Theorem value_objects_sorted :
  (forall d t v, de_value d t = Some v -> objects_sorted v) /\
  (forall s v, ServerMessage.from_slice s = Some (ServerMessage.MessagePush v) -> objects_sorted v).
Proof.
  split.
  - intros d t v H. exact (de_value_sorted t d v H).
  - exact push_sorted.
Qed.

(** X14: a [ServerResponse] object with no [status] key is rejected, and
    one with no [msg] key can only decode to [Ok]. *)
Theorem response_missing_fields :
  (forall s ms, read_json s = Some (RObj ms) ->
     (forall k v, In (k, v) ms -> unescape k <> Some "status") ->
     ServerResponse.from_slice s = None) /\
  (forall s ms r, read_json s = Some (RObj ms) ->
     (forall k v, In (k, v) ms -> unescape k <> Some "msg") ->
     ServerResponse.from_slice s = Some r -> r = ServerResponse.Ok).
Proof.
  split.
  - intros s ms Hs Hn. unfold ServerResponse.from_slice. rewrite Hs. cbn [obind].
    unfold ServerResponse.deserialize, initial_depth.
    destruct (ServerResponse.tagged_map 127 ms None []) as [[tag es]|] eqn:Et; [|reflexivity].
    pose proof (tagged_map_no_status _ _ _ _ Hn Et) as Ht. cbn [fst] in Ht. subst tag.
    reflexivity.
  - intros s ms r Hs Hn. unfold ServerResponse.from_slice. rewrite Hs. cbn [obind].
    unfold ServerResponse.deserialize, initial_depth.
    destruct (ServerResponse.tagged_map 127 ms None []) as [[tag es]|] eqn:Et;
      cbn [obind]; [|discriminate].
    destruct tag as [tg|]; [|discriminate].
    destruct (String.eqb tg "Ok"); [intro H; apply some_inj in H; symmetry; exact H|].
    rewrite msg_field_none; [discriminate|].
    intros k c Hin Hk. subst k.
    destruct (tagged_map_entries _ _ _ _ _ _ Et _ _ Hin) as [[]|(raw & v & Hr & Hu)].
    exact (Hn raw v Hr Hu).
Qed.

End Extras.

(** * The claims on concrete inputs *)

Section Examples.
#[local] Existing Instance toy_f64.

(** C1: a [SetMouse] message reads back; a [MessagePush] of an array
    holding the float [0.0] reads back, and so is within [in_range]. *)
Lemma roundtrip_witness :
  (ClientMessage.in_range (ClientMessage.SetMouse 3 4 None) /\
   exists p, ClientMessage.to_string (ClientMessage.SetMouse 3 4 None) = Some p /\
     ClientMessage.from_str p = Some (ClientMessage.SetMouse 3 4 None)) /\
  (value_wf (Value.Array [Value.Number (Float (mk_f64 0))]) /\
   ServerMessage.to_vec (ServerMessage.MessagePush (Value.Array [Value.Number (Float (mk_f64 0))]))
     = Some (tick "{`MessagePush`:{`message`:[0.0]}}") /\
   ServerMessage.from_slice (tick "{`MessagePush`:{`message`:[0.0]}}")
     = Some (ServerMessage.MessagePush (Value.Array [Value.Number (Float (mk_f64 0))])) /\
   ServerMessage.in_range (ServerMessage.MessagePush (Value.Array [Value.Number (Float (mk_f64 0))]))).
Proof.
  split.
  - split; [cbn; lia|]. apply (proj1 roundtrip). cbn; lia.
  - assert (Hw : value_wf (Value.Array [Value.Number (Float (mk_f64 0))])) by (cbn; auto).
    assert (Ht : ServerMessage.to_vec
                   (ServerMessage.MessagePush (Value.Array [Value.Number (Float (mk_f64 0))]))
                 = Some (tick "{`MessagePush`:{`message`:[0.0]}}")) by reflexivity.
    assert (Hf : ServerMessage.from_slice (tick "{`MessagePush`:{`message`:[0.0]}}")
                 = Some (ServerMessage.MessagePush (Value.Array [Value.Number (Float (mk_f64 0))])))
      by reflexivity.
    split; [exact Hw|]. split; [exact Ht|]. split; [exact Hf|].
    exact (proj2 (proj2 (proj2 roundtrip)) _ _ Hw Ht Hf).
Defined.

(** C1: a [MessagePush] whose value is nested 126 arrays deep is written,
    but the reader refuses it (recursion limit). *)
Lemma roundtrip_deep_message_push :
  exists p, ServerMessage.to_vec (ServerMessage.MessagePush (nest 126 Value.Null)) = Some p /\
    ServerMessage.from_slice p = None.
Proof. eexists. split; [reflexivity|]. vm_compute. reflexivity. Qed.

(** C3: [Reload] with no session. *)
Lemma session_id_omitted_witness :
  ClientMessage.session_of (ClientMessage.Reload None) = None /\
  exists fs, ser_json (ClientMessage.serialize (ClientMessage.Reload None))
    = Some (RObj [(escape "Reload", RObj fs)]) /\ ~ In "session_id" (map fst fs).
Proof.
  split; [reflexivity|].
  apply (proj1 session_id_omitted (ClientMessage.Reload None)); [reflexivity|discriminate].
Defined.

(** C4: the [None] fields of [AuthResult] are written as [null]. *)
Lemma auth_result_null_keys :
  ser_json (ServerMessage.serialize (ServerMessage.AuthResult false None None))
    = Some (RObj [("AuthResult", RObj [("success", RBool false); ("session_id", RNull);
                                       ("expires_in_seconds", RNull)])]) /\
  ServerMessage.to_vec (ServerMessage.AuthResult false None None)
    = Some (tick "{`AuthResult`:{`success`:false,`session_id`:null,`expires_in_seconds`:null}}").
Proof. split; reflexivity. Qed.

(** C5: the variant name [Bogus]. *)
Lemma unknown_discriminator_witness :
  enum_access 128 (RObj [("Bogus", RObj [])]) = Some ("Bogus", Some (127%nat, RObj [])) /\
  ~ In "Bogus" ClientMessage.variant_names /\
  ClientMessage.deserialize 128 (RObj [("Bogus", RObj [])]) = None.
Proof.
  assert (H1 : enum_access 128 (RObj [("Bogus", RObj [])]) = Some ("Bogus", Some (127%nat, RObj [])))
    by reflexivity.
  assert (H2 : ~ In "Bogus" ClientMessage.variant_names) by (cbn; intuition discriminate).
  split; [exact H1|]. split; [exact H2|].
  exact (proj1 unknown_discriminator _ _ _ _ H1 H2).
Defined.

(** C7: a [LayerChange] message then an [Ok] response on one stream. *)
Lemma framing_witness :
  exists p1 p2,
    tick "{`LayerChange`:{`new`:`base`}}" ++ nl = p1 ++ nl /\
    tick "{`status`:`Ok`}" ++ nl = p2 ++ nl /\
    split_frames ((tick "{`LayerChange`:{`new`:`base`}}" ++ nl) ++ (tick "{`status`:`Ok`}" ++ nl))
      = [p1; p2] /\
    (out_in_range (inl (ServerMessage.LayerChange "base")) ->
       out_decodes (inl (ServerMessage.LayerChange "base")) p1) /\
    (out_in_range (inr ServerResponse.Ok) -> out_decodes (inr ServerResponse.Ok) p2).
Proof.
  apply (proj2 framing (inl (ServerMessage.LayerChange "base")) (inr ServerResponse.Ok));
    reflexivity.
Defined.

(** C7: two frames of a deep [MessagePush] split well, but neither decodes. *)
Lemma framing_deep_message_push :
  exists b p, ServerMessage.as_bytes (ServerMessage.MessagePush (nest 126 Value.Null)) = Some b /\
    split_frames (b ++ b) = [p; p] /\ ServerMessage.from_slice p = None.
Proof.
  eexists; eexists. split; [reflexivity|]. split; [reflexivity|]. vm_compute. reflexivity.
Qed.

(** C8: the array form [{"SetMouse":[1,2,null]}] is a valid encoding and
    is accepted; a [SetMouse] payload without [y] is refused. *)
Lemma from_str_result_witness :
  ClientEncoding.valid_encoding (tick "{`SetMouse`:[1,2,null]}") (ClientMessage.SetMouse 1 2 None) /\
  ClientMessage.from_str (tick "{`SetMouse`:[1,2,null]}") = Some (ClientMessage.SetMouse 1 2 None) /\
  read_json (tick "{`SetMouse`:{`x`:1}}") = Some (RObj [("SetMouse", RObj [("x", RNum "1")])]) /\
  ClientMessage.from_str (tick "{`SetMouse`:{`x`:1}}") = None.
Proof.
  assert (Hv : ClientEncoding.valid_encoding (tick "{`SetMouse`:[1,2,null]}")
                 (ClientMessage.SetMouse 1 2 None)).
  { exists "SetMouse", (RArr [RNum "1"; RNum "2"; RNull]).
    split; [reflexivity|]. split; [reflexivity|]. cbn. repeat split. }
  split; [exact Hv|]. split; [exact (proj2 (proj1 from_str_result _ _) Hv)|].
  assert (H : read_json (tick "{`SetMouse`:{`x`:1}}")
              = Some (RObj [("SetMouse", RObj [("x", RNum "1")])])) by reflexivity.
  split; [exact H|].
  apply (proj1 (proj2 (proj2 from_str_result)) _ _ _ "SetMouse" "y" H); [reflexivity|cbn; tauto|].
  intros k1 v1 [E|[]]. injection E as <- <-. cbn. discriminate.
Defined.

(** C9: [x] of 70000 in map form, and [y] of [-0] in array form. *)
Lemma set_mouse_u16_witness :
  read_json (tick "{`SetMouse`:{`x`:70000,`y`:1}}")
    = Some (RObj [("SetMouse", RObj [("x", RNum "70000"); ("y", RNum "1")])]) /\
  ClientMessage.from_str (tick "{`SetMouse`:{`x`:70000,`y`:1}}") = None /\
  read_json (tick "{`SetMouse`:[1,-0,null]}")
    = Some (RObj [("SetMouse", RArr [RNum "1"; RNum "-0"; RNull])]) /\
  ClientMessage.from_str (tick "{`SetMouse`:[1,-0,null]}") = None.
Proof.
  assert (H1 : read_json (tick "{`SetMouse`:{`x`:70000,`y`:1}}")
    = Some (RObj [("SetMouse", RObj [("x", RNum "70000"); ("y", RNum "1")])])) by reflexivity.
  assert (H2 : read_json (tick "{`SetMouse`:[1,-0,null]}")
    = Some (RObj [("SetMouse", RArr [RNum "1"; RNum "-0"; RNull])])) by reflexivity.
  split; [exact H1|]. split.
  - apply (proj1 (proj2 (proj2 set_mouse_u16)) _ _ _ "x" "x" (RNum "70000") H1 eq_refl
             (or_introl eq_refl) (or_introl eq_refl) eq_refl).
    intros (l & E & _ & _ & Hl). injection E as <-. cbn in Hl. lia.
  - split; [exact H2|].
    apply (proj1 (proj2 (proj2 (proj2 set_mouse_u16))) _ _ _ _ _ H2 eq_refl).
    right. intros (l & E & _ & Ha & _). injection E as <-. discriminate Ha.
Defined.



(** X1: a [LayerChange] payload followed by a space and a newline, then
    followed by a stray byte. *)
Lemma trailing_text_witness :
  ServerMessage.from_slice (tick "{`LayerChange`:{`new`:`base`}}" ++ String " "%char nl)
    = Some (ServerMessage.LayerChange "base") /\
  ServerMessage.from_slice (tick "{`LayerChange`:{`new`:`base`}}" ++ "x") = None.
Proof.
  destruct (proj1 (proj2 trailing_text) (ServerMessage.LayerChange "base") I) as [p [Hp H]].
  assert (E : ServerMessage.to_vec (ServerMessage.LayerChange "base")
              = Some (tick "{`LayerChange`:{`new`:`base`}}")) by reflexivity.
  rewrite E in Hp. injection Hp as <-. split; rewrite H; reflexivity.
Defined.

(** X2: the frame of a [LayerChange]. *)
Lemma frame_decodes_witness :
  ServerMessage.as_bytes (ServerMessage.LayerChange "base")
    = Some (tick "{`LayerChange`:{`new`:`base`}}" ++ nl) /\
  ServerMessage.from_slice (tick "{`LayerChange`:{`new`:`base`}}" ++ nl)
    = Some (ServerMessage.LayerChange "base").
Proof.
  assert (H : ServerMessage.as_bytes (ServerMessage.LayerChange "base")
              = Some (tick "{`LayerChange`:{`new`:`base`}}" ++ nl)) by reflexivity.
  split; [exact H|]. exact (proj1 frame_decodes (ServerMessage.LayerChange "base") _ I H).
Defined.

(** X4: the frame of [AuthRequired]. *)
Lemma encodings_injective_witness :
  ServerMessage.as_bytes ServerMessage.AuthRequired = Some (tick "`AuthRequired`" ++ nl) /\
  ServerMessage.AuthRequired = ServerMessage.AuthRequired.
Proof.
  assert (H : ServerMessage.as_bytes ServerMessage.AuthRequired
              = Some (tick "`AuthRequired`" ++ nl)) by reflexivity.
  split; [exact H|]. exact (proj1 (proj2 encodings_injective) ServerMessage.AuthRequired ServerMessage.AuthRequired _
           I I H H).
Defined.

(** X5: [{"Tap":null}] is read, [{"Tap":true}] is not. *)
Lemma fake_key_action_forms_witness :
  FakeKeyActionMessage.deserialize 127 (RObj [("Tap", RNull)]) = Some FakeKeyActionMessage.Tap /\
  FakeKeyActionMessage.deserialize 127 (RObj [("Tap", RBool true)]) <> Some FakeKeyActionMessage.Tap.
Proof.
  split.
  - apply (proj2 (proj2 (proj2 (fake_key_action_forms FakeKeyActionMessage.Tap 127))
                    ltac:(lia) "Tap" RNull eq_refl)).
    reflexivity.
  - intro H.
    apply (proj1 (proj2 (proj2 (fake_key_action_forms FakeKeyActionMessage.Tap 127))
                    ltac:(lia) "Tap" (RBool true) eq_refl)) in H.
    discriminate H.
Defined.

(** X6: [SessionExpired] in both forms. *)
Lemma unit_variant_forms_witness :
  ServerMessage.deserialize 127 (RObj [("SessionExpired", RNull)])
    = Some ServerMessage.SessionExpired /\
  ServerMessage.deserialize 127 (RStr "SessionExpired") = Some ServerMessage.SessionExpired.
Proof.
  split.
  - apply (proj2 (proj2 (proj2 unit_variant_forms) 127%nat "SessionExpired" RNull
                    ServerMessage.SessionExpired ltac:(lia) (or_intror eq_refl) eq_refl)).
    reflexivity.
  - apply (proj2 (proj1 (proj2 unit_variant_forms) 127%nat "SessionExpired"
                    ServerMessage.SessionExpired)).
    split; [reflexivity | right; reflexivity].
Defined.

(** X7: a [SetMouse] payload with [x] twice. *)
Lemma duplicate_field_witness :
  read_json (tick "{`SetMouse`:{`x`:1,`x`:2,`y`:3}}")
    = Some (RObj [("SetMouse", RObj [("x", RNum "1"); ("x", RNum "2"); ("y", RNum "3")])]) /\
  ClientMessage.from_str (tick "{`SetMouse`:{`x`:1,`x`:2,`y`:3}}") = None.
Proof.
  assert (H : read_json (tick "{`SetMouse`:{`x`:1,`x`:2,`y`:3}}")
    = Some (RObj [("SetMouse", RObj [("x", RNum "1"); ("x", RNum "2"); ("y", RNum "3")])]))
    by reflexivity.
  split; [exact H|].
  exact (proj1 duplicate_field _ "SetMouse" "SetMouse" [] "x" (RNum "1") [] "x" (RNum "2")
           [("y", RNum "3")] "x" H eq_refl (or_introl eq_refl) eq_refl eq_refl).
Defined.

(** X8: a response with [status] twice. *)
Lemma duplicate_status_witness :
  read_json (tick "{`status`:`Ok`,`status`:`Ok`}")
    = Some (RObj [("status", RStr "Ok"); ("status", RStr "Ok")]) /\
  ServerResponse.from_slice (tick "{`status`:`Ok`,`status`:`Ok`}") = None.
Proof.
  assert (H : read_json (tick "{`status`:`Ok`,`status`:`Ok`}")
              = Some (RObj [("status", RStr "Ok"); ("status", RStr "Ok")])) by reflexivity.
  split; [exact H|].
  exact (duplicate_status _ [] "status" (RStr "Ok") [("status", RStr "Ok")] "status" (RStr "Ok")
           H eq_refl eq_refl (or_introl eq_refl)).
Defined.

(** X9: the number [42] as a [u64] and as a [u16]. *)
Lemma integer_fields_witness :
  de_u64 (RNum "42") = Some 42 /\ de_u16 (RNum "42") = Some 42.
Proof.
  assert (H : de_u64 (RNum "42") = Some 42).
  { apply (proj2 (proj1 integer_fields (RNum "42") 42)). exists "42".
    split; [reflexivity|]. split; [discriminate|]. split; [reflexivity|].
    split; [reflexivity|]. reflexivity. }
  split; [exact H|]. apply (proj2 (proj2 integer_fields (RNum "42") 42)). split; [exact H | lia].
Defined.

(** X10: a [CurrentLayerInfo] payload without [cfg_text]. *)
Lemma server_missing_field_witness :
  read_json (tick "{`CurrentLayerInfo`:{`name`:`a`}}")
    = Some (RObj [("CurrentLayerInfo", RObj [("name", RStr "a")])]) /\
  ServerMessage.from_slice (tick "{`CurrentLayerInfo`:{`name`:`a`}}") = None.
Proof.
  assert (H : read_json (tick "{`CurrentLayerInfo`:{`name`:`a`}}")
              = Some (RObj [("CurrentLayerInfo", RObj [("name", RStr "a")])])) by reflexivity.
  split; [exact H|].
  apply (server_missing_field _ "CurrentLayerInfo" [("name", RStr "a")] "CurrentLayerInfo"
           "cfg_text" H eq_refl); [cbn; tauto|].
  intros k1 v1 [E|[]]. injection E as <- <-. cbn. discriminate.
Defined.

(** X11: an [Error] response with [msg] first, and in array form. *)
Lemma response_alternative_forms_witness :
  ServerResponse.from_slice (tick "{`msg`:`boom`,`status`:`Error`}")
    = Some (ServerResponse.Error "boom") /\
  ServerResponse.deserialize 128 (RArr [RStr "Error"; RStr (escape "boom")])
    = Some (ServerResponse.Error "boom").
Proof.
  destruct (response_alternative_forms 128 "boom" ltac:(lia)) as [H1 [_ [H3 _]]].
  split; [|exact H3].
  assert (Hr : read_json (tick "{`msg`:`boom`,`status`:`Error`}")
               = Some (RObj [("msg", RStr (escape "boom")); ("status", RStr "Error")]))
    by reflexivity.
  unfold ServerResponse.from_slice. rewrite Hr. exact H1.
Defined.

(** X12: [SetMouse] content as the array [[1, 2, null]]. *)
Lemma array_form_fields_witness :
  ClientMessage.de_variant "SetMouse" 127 (RArr [RNum "1"; RNum "2"; RNull])
    = Some (ClientMessage.SetMouse 1 2 None).
Proof.
  rewrite (proj1 array_form_fields "SetMouse" 127%nat [RNum "1"; RNum "2"; RNull] eq_refl).
  reflexivity.
Defined.

(** X13: keys out of order and repeated in a [MessagePush] value; the
    repeated key keeps its last value. *)
Lemma value_objects_sorted_witness :
  ServerMessage.from_slice (tick "{`MessagePush`:{`message`:{`b`:1,`a`:2,`b`:3}}}")
    = Some (ServerMessage.MessagePush
              (Value.Object [("a", Value.Number (PosInt 2)); ("b", Value.Number (PosInt 3))])) /\
  objects_sorted (Value.Object [("a", Value.Number (PosInt 2)); ("b", Value.Number (PosInt 3))]).
Proof.
  assert (H : ServerMessage.from_slice (tick "{`MessagePush`:{`message`:{`b`:1,`a`:2,`b`:3}}}")
    = Some (ServerMessage.MessagePush
              (Value.Object [("a", Value.Number (PosInt 2)); ("b", Value.Number (PosInt 3))])))
    by reflexivity.
  split; [exact H | exact (proj2 value_objects_sorted _ _ H)].
Defined.

(** X14: [{"msg":"x"}] is rejected; [{"status":"Ok","other":1}] is [Ok]. *)
Lemma response_missing_fields_witness :
  ServerResponse.from_slice (tick "{`msg`:`x`}") = None /\
  exists r, ServerResponse.from_slice (tick "{`status`:`Ok`,`other`:1}") = Some r /\
    r = ServerResponse.Ok.
Proof.
  destruct response_missing_fields as [H1 H2]. split.
  - apply (H1 _ [("msg", RStr "x")]); [reflexivity|].
    intros k v [E|[]]. injection E as <- _. discriminate.
  - exists ServerResponse.Ok. split; [reflexivity|].
    apply (H2 (tick "{`status`:`Ok`,`other`:1}") [("status", RStr "Ok"); ("other", RNum "1")]);
      [reflexivity| |reflexivity].
    intros k v [E|[E|[]]]; injection E as <- _; discriminate.
Defined.

End Examples.
